(** * The job scheduler of trigg3rX/go-backend (execute/manager)

    A shallow embedding of [execute/manager/jobmanager.go] and
    [execute/manager/job.go]: the scheduler state, the admission gate
    ([AddJob], [scheduleJob]), the waiting-queue promoter
    ([processWaitingQueue]), the recurring trigger registered by
    [scheduleJob], the per-job routine ([processJob]) and the read-only
    queries, followed by the properties of the design document that are
    checked against them.

    How the Go program is rendered:
    - a [*types.Job] is a location in [heap]; the registry, the waiting
      queue, the ready queue and the timer closures all hold locations, so
      that an update made by a worker is seen through every alias;
    - [int64] arithmetic wraps ([wrap64]); a [time.Time] is a number of
      nanoseconds, a [time.Duration] an [int64] number of nanoseconds;
    - a [float64] is an IEEE 754 value of the standard library's
      [spec_float];
    - [sync.RWMutex] is part of the state.  A method is a state
      transformer that either returns, blocks on a lock or on the full
      ready queue, or panics;
    - what the program draws from its environment (the clock, the random
      source, the peer file, the network, the resource sampler) is an
      argument of the method that consumes it.

    Left out: [Stop] and the context it cancels, and the messaging and
    discovery handles; no property below involves them. *)

From Stdlib Require Import ZArith Lia.
From Stdlib Require Import Floats.SpecFloat.
From stdpp Require Import base option list gmap strings pretty fin_maps.

Local Open Scope Z_scope.

(** ** Machine integers and time *)

Definition MaxInt64 : Z := 2 ^ 63 - 1.
Definition MinInt64 : Z := - 2 ^ 63.

(** The value of an [int64] expression whose mathematical value is [x]. *)
Definition wrap64 (x : Z) : Z := (x + 2 ^ 63) mod 2 ^ 64 - 2 ^ 63.

Definition int64 (x : Z) : Prop := MinInt64 <= x <= MaxInt64.

(** [time.Second], in nanoseconds. *)
Definition Second : Z := 1000000000.

(** [time.Duration(n) * time.Second] for an [int64] [n]. *)
Definition seconds (n : Z) : Z := wrap64 (wrap64 n * Second).

(** [t.Add(d)]. *)
Definition Time_Add (t d : Z) : Z := t + d.

(** [t.After(u)]. *)
Definition Time_After (t u : Z) : bool := u <? t.

(** [t.Sub(u)]: the difference, or the largest (smallest) duration when it
    does not fit. *)
Definition Time_Sub (t u : Z) : Z :=
  if MaxInt64 <? t - u then MaxInt64
  else if t - u <? MinInt64 then MinInt64
  else t - u.

(** [time.Since(t)], the clock reading [now]. *)
Definition Since (now t : Z) : Z := Time_Sub now t.

(** ** Floating point: the two thresholds *)

(** [10.0] and [80.0] as binary64 values: 1.25 * 2^3 and 1.25 * 2^6. *)
Definition float_10 : spec_float := S754_finite false 5629499534213120 (-49).
Definition float_80 : spec_float := S754_finite false 5629499534213120 (-46).
Definition float_0 : spec_float := S754_zero false.

(** ** Data model *)

(** A job pointer. *)
Definition loc := positive.

(** [types.Job] with the fields [manager.Job] adds to it, as one flat
    record.  The declaration of [types.Job] is in [pkg/types]; the fields
    are those the two files read and write, with the integer types the
    caller in [cmd/manager/main.go] gives them. *)
Record Job := mkJob {
  JobID : string;
  Status : string;
  CreatedAt : Z;
  TimeFrame : Z;
  TimeInterval : Z;
  MaxRetries : Z;
  CurrentRetries : Z;
  LastExecuted : Z;
  Error : string
}.

Record Quorum := mkQuorum {
  QuorumID : string;
  NodeCount : Z;
  ActiveNodes : list string;
  QuorumStatus : string;
  ChainID : string;
  QuorumCreatedAt : Z;
  UpdatedAt : Z
}.

Record SystemResources := mkResources {
  CPUUsage : spec_float;
  MemoryUsage : spec_float;
  MaxCPU : spec_float;
  MaxMemory : spec_float
}.

Record WaitingJob := mkWaitingJob {
  JobPtr : loc;
  EstimatedTime : Z
}.

Inductive RWMutex :=
| Unlocked
| WLocked
| RLocked (others : nat).   (* held by [S others] readers *)

(** The part of [cron.Cron] the scheduler relies on: the parser chosen at
    construction and the entries added so far.  An entry keeps its spec
    and the job its closure captured. *)
Record cron_Entry := mkEntry {
  Spec : string;
  EntryJob : loc
}.

Record cron_Cron := mkCron {
  parser : string -> bool;
  entries : list cron_Entry
}.

Record JobScheduler := mkJobScheduler {
  heap : gmap loc Job;
  jobs : gmap string loc;
  quorums : gmap string Quorum;
  jobQueue : list loc;
  waitingQueue : list WaitingJob;
  resources : SystemResources;
  Cron : cron_Cron;
  timers : list (Z * loc);        (* [time.AfterFunc] one-shots: delay, job *)
  mu : RWMutex;
  workersCount : Z;
  metricsInterval : Z;
  waitingQueueMu : RWMutex
}.

(** Capacity of the ready queue, [make(chan *types.Job, 1000)]. *)
Definition jobQueue_cap : nat := 1000.

Definition set_heap (f : gmap loc Job -> gmap loc Job) (s : JobScheduler) :=
  mkJobScheduler (f (heap s)) (jobs s) (quorums s) (jobQueue s)
    (waitingQueue s) (resources s) (Cron s) (timers s) (mu s)
    (workersCount s) (metricsInterval s) (waitingQueueMu s).
Definition set_jobs (f : gmap string loc -> gmap string loc) (s : JobScheduler) :=
  mkJobScheduler (heap s) (f (jobs s)) (quorums s) (jobQueue s)
    (waitingQueue s) (resources s) (Cron s) (timers s) (mu s)
    (workersCount s) (metricsInterval s) (waitingQueueMu s).
Definition set_quorums (f : gmap string Quorum -> gmap string Quorum) (s : JobScheduler) :=
  mkJobScheduler (heap s) (jobs s) (f (quorums s)) (jobQueue s)
    (waitingQueue s) (resources s) (Cron s) (timers s) (mu s)
    (workersCount s) (metricsInterval s) (waitingQueueMu s).
Definition set_jobQueue (f : list loc -> list loc) (s : JobScheduler) :=
  mkJobScheduler (heap s) (jobs s) (quorums s) (f (jobQueue s))
    (waitingQueue s) (resources s) (Cron s) (timers s) (mu s)
    (workersCount s) (metricsInterval s) (waitingQueueMu s).
Definition set_waitingQueue (f : list WaitingJob -> list WaitingJob) (s : JobScheduler) :=
  mkJobScheduler (heap s) (jobs s) (quorums s) (jobQueue s)
    (f (waitingQueue s)) (resources s) (Cron s) (timers s) (mu s)
    (workersCount s) (metricsInterval s) (waitingQueueMu s).
Definition set_resources (f : SystemResources -> SystemResources) (s : JobScheduler) :=
  mkJobScheduler (heap s) (jobs s) (quorums s) (jobQueue s)
    (waitingQueue s) (f (resources s)) (Cron s) (timers s) (mu s)
    (workersCount s) (metricsInterval s) (waitingQueueMu s).
Definition set_Cron (f : cron_Cron -> cron_Cron) (s : JobScheduler) :=
  mkJobScheduler (heap s) (jobs s) (quorums s) (jobQueue s)
    (waitingQueue s) (resources s) (f (Cron s)) (timers s) (mu s)
    (workersCount s) (metricsInterval s) (waitingQueueMu s).
Definition set_timers (f : list (Z * loc) -> list (Z * loc)) (s : JobScheduler) :=
  mkJobScheduler (heap s) (jobs s) (quorums s) (jobQueue s)
    (waitingQueue s) (resources s) (Cron s) (f (timers s)) (mu s)
    (workersCount s) (metricsInterval s) (waitingQueueMu s).
Definition set_mu (m : RWMutex) (s : JobScheduler) :=
  mkJobScheduler (heap s) (jobs s) (quorums s) (jobQueue s)
    (waitingQueue s) (resources s) (Cron s) (timers s) m
    (workersCount s) (metricsInterval s) (waitingQueueMu s).
Definition set_waitingQueueMu (m : RWMutex) (s : JobScheduler) :=
  mkJobScheduler (heap s) (jobs s) (quorums s) (jobQueue s)
    (waitingQueue s) (resources s) (Cron s) (timers s) (mu s)
    (workersCount s) (metricsInterval s) m.

(** ** Methods as state transformers *)

(** What a call leaves behind: it returned [a], it is waiting (for a lock
    or for room in the ready queue), or it panicked; each with the state at
    that point. *)
Inductive Run (A : Type) :=
| Ret (a : A) (s : JobScheduler)
| Blocked (s : JobScheduler)
| Panic (s : JobScheduler).
Arguments Ret {A} a s.
Arguments Blocked {A} s.
Arguments Panic {A} s.

Definition M (A : Type) : Type := JobScheduler -> Run A.

Definition ret {A} (a : A) : M A := fun s => Ret a s.

Definition bind {A B} (m : M A) (k : A -> M B) : M B :=
  fun s =>
    match m s with
    | Ret a s' => k a s'
    | Blocked s' => Blocked s'
    | Panic s' => Panic s'
    end.

Declare Scope go_scope.
Delimit Scope go_scope with go.
Notation "x <- m ;; k" := (bind m (fun x => k))
  (at level 100, m at next level, k at level 200, right associativity) : go_scope.
Notation "m ;; k" := (bind m (fun _ => k))
  (at level 100, k at level 200, right associativity) : go_scope.
Local Open Scope go_scope.

Definition gets {A} (f : JobScheduler -> A) : M A := fun s => Ret (f s) s.
Definition modify (f : JobScheduler -> JobScheduler) : M unit := fun s => Ret tt (f s).
Definition block {A} : M A := fun s => Blocked s.
Definition panic {A} : M A := fun s => Panic s.

(** The state a call leaves behind, whatever its outcome. *)
Definition after {A} (r : Run A) : JobScheduler :=
  match r with Ret _ s | Blocked s | Panic s => s end.

(** Dereference of a job pointer; a pointer to no job is [nil]. *)
Definition deref (p : loc) : M Job :=
  fun s => match heap s !! p with Some j => Ret j s | None => Panic s end.

(** Assignment through a job pointer. *)
Definition store (p : loc) (j : Job) : M unit := modify (set_heap <[p := j]>).

(** *** [sync.RWMutex]

    [Lock] waits until nobody holds the mutex, [RLock] until no writer
    does; neither is reentrant.  Unlocking a mutex that is not held is a
    fatal error.  A call started while no lock is held can only find a
    lock taken by itself: its wait for that lock does not end. *)
Definition RWMutex_Lock (m : RWMutex) : option RWMutex :=
  match m with Unlocked => Some WLocked | _ => None end.
Definition RWMutex_Unlock (m : RWMutex) : option RWMutex :=
  match m with WLocked => Some Unlocked | _ => None end.
Definition RWMutex_RLock (m : RWMutex) : option RWMutex :=
  match m with
  | Unlocked => Some (RLocked 0)
  | RLocked n => Some (RLocked (S n))
  | WLocked => None
  end.
Definition RWMutex_RUnlock (m : RWMutex) : option RWMutex :=
  match m with
  | RLocked 0 => Some Unlocked
  | RLocked (S n) => Some (RLocked n)
  | _ => None
  end.

Definition mu_Lock : M unit :=
  fun s => match RWMutex_Lock (mu s) with
           | Some m => Ret tt (set_mu m s) | None => Blocked s end.
Definition mu_Unlock : M unit :=
  fun s => match RWMutex_Unlock (mu s) with
           | Some m => Ret tt (set_mu m s) | None => Panic s end.
Definition mu_RLock : M unit :=
  fun s => match RWMutex_RLock (mu s) with
           | Some m => Ret tt (set_mu m s) | None => Blocked s end.
Definition mu_RUnlock : M unit :=
  fun s => match RWMutex_RUnlock (mu s) with
           | Some m => Ret tt (set_mu m s) | None => Panic s end.
Definition waitingQueueMu_Lock : M unit :=
  fun s => match RWMutex_Lock (waitingQueueMu s) with
           | Some m => Ret tt (set_waitingQueueMu m s) | None => Blocked s end.
Definition waitingQueueMu_Unlock : M unit :=
  fun s => match RWMutex_Unlock (waitingQueueMu s) with
           | Some m => Ret tt (set_waitingQueueMu m s) | None => Panic s end.

(** ** [jobmanager.go] *)

Inductive error :=
| ErrInvalidTimeframe                    (* "invalid timeframe specified" *)
| ErrScheduleFailed (cronSpec : string)  (* "failed to schedule job: ..." *)
| ErrJobNotFound (jobID : string).       (* "job ... not found" *)

(** The quorum [initializeQuorums] installs. *)
Definition defaultQuorum (now : Z) : Quorum :=
  {| QuorumID := "default";
     NodeCount := 3;
     ActiveNodes := ["node1"; "node2"; "node3"]%string;
     QuorumStatus := "active";
     ChainID := "chain_1";
     QuorumCreatedAt := now;
     UpdatedAt := now |}.

Definition initializeQuorums (now : Z) : M unit :=
  mu_Lock ;;
  modify (set_quorums <["default"%string := defaultQuorum now]>) ;;
  mu_Unlock.

(** The struct literal of [NewJobScheduler]; [withSeconds] is the parser
    [cron.New(cron.WithSeconds())] installs. *)
Definition NewJobScheduler_literal (workers : Z) (withSeconds : string -> bool)
  : JobScheduler :=
  {| heap := ∅;
     jobs := ∅;
     quorums := ∅;
     jobQueue := [];
     waitingQueue := [];
     resources := {| CPUUsage := float_0; MemoryUsage := float_0;
                     MaxCPU := float_10; MaxMemory := float_80 |};
     Cron := {| parser := withSeconds; entries := [] |};
     timers := [];
     mu := Unlocked;
     workersCount := workers;
     metricsInterval := 5 * Second;
     waitingQueueMu := Unlocked |}.

(** [NewJobScheduler]: the literal, then [initializeQuorums].  The
    goroutines it starts are the events of the section on runs below. *)
Definition NewJobScheduler (workers : Z) (withSeconds : string -> bool) (now : Z)
  : JobScheduler :=
  after (initializeQuorums now (NewJobScheduler_literal workers withSeconds)).

(** One tick of [monitorResources]: [cpu] is the first sample of
    [cpu.Percent] and [mem] the used percentage of [mem.VirtualMemory],
    [None] when the query failed (or returned no sample). *)
Definition monitorResources_tick (cpu mem : option spec_float) : M unit :=
  match cpu with
  | Some c => modify (set_resources (fun r =>
      mkResources c (MemoryUsage r) (MaxCPU r) (MaxMemory r)))
  | None => ret tt
  end ;;
  match mem with
  | Some m => modify (set_resources (fun r =>
      mkResources (CPUUsage r) m (MaxCPU r) (MaxMemory r)))
  | None => ret tt
  end.

Definition float_lt (x y : spec_float) : bool := SFltb x y.

Definition checkResourceAvailability (s : JobScheduler) : bool :=
  float_lt (CPUUsage (resources s)) (MaxCPU (resources s)) &&
  float_lt (MemoryUsage (resources s)) (MaxMemory (resources s)).

(** The body of the loop of [calculateEstimatedWaitTime], over the
    registry entries in the order the map yields them. *)
Fixpoint earliest_loop (ps : list (string * loc)) (earliestCompletion : Z) : M Z :=
  match ps with
  | [] => ret earliestCompletion
  | (_, p) :: rest =>
      job <- deref p ;;
      if String.eqb (Status job) "processing" then
        let expectedCompletion := Time_Add (CreatedAt job) (seconds (TimeFrame job)) in
        if Time_After earliestCompletion expectedCompletion
        then earliest_loop rest expectedCompletion
        else earliest_loop rest earliestCompletion
      else earliest_loop rest earliestCompletion
  end.

Definition calculateEstimatedWaitTime (now : Z) : M Z :=
  let earliestCompletion := Time_Add now (30 * Second) in
  mu_RLock ;;
  ps <- gets (fun s => map_to_list (jobs s)) ;;
  earliestCompletion <- earliest_loop ps earliestCompletion ;;
  mu_RUnlock ;;
  ret earliestCompletion.

(** [fmt.Sprintf("@every %ds", job.TimeInterval)]. *)
Definition cronSpec_of (job : Job) : string :=
  "@every " +:+ pretty (TimeInterval job) +:+ "s".

(** [js.Cron.AddFunc(spec, closure)]: the entry is added when the spec
    parses; the result tells whether it did. *)
Definition Cron_AddFunc (spec : string) (p : loc) : M bool :=
  ok <- gets (fun s => parser (Cron s) spec) ;;
  if ok then
    modify (set_Cron (fun c => mkCron (parser c) (entries c ++ [mkEntry spec p]))) ;;
    ret true
  else ret false.

Definition scheduleJob (p : loc) : M (option error) :=
  job <- deref p ;;
  modify (set_jobs <[JobID job := p]>) ;;
  let cronSpec := cronSpec_of job in
  modify (set_timers (fun ts => ts ++ [(2 * Second, p)])) ;;
  ok <- Cron_AddFunc cronSpec p ;;
  if ok then ret None else ret (Some (ErrScheduleFailed cronSpec)).

Definition AddJob (p : loc) (now : Z) : M (option error) :=
  job <- deref p ;;
  if TimeFrame job <=? 0 then ret (Some ErrInvalidTimeframe)
  else
    mu_Lock ;;
    available <- gets checkResourceAvailability ;;
    if negb available then
      estimatedTime <- calculateEstimatedWaitTime now ;;
      waitingQueueMu_Lock ;;
      modify (set_waitingQueue (fun q => q ++ [mkWaitingJob p estimatedTime])) ;;
      waitingQueueMu_Unlock ;;
      mu_Unlock ;;
      ret None
    else
      err <- scheduleJob p ;;
      mu_Unlock ;;
      ret err.

(** [js.jobQueue <- job]: waits while the channel is full. *)
Definition jobQueue_send (p : loc) : M unit :=
  fun s =>
    if (length (jobQueue s) <? jobQueue_cap)%nat
    then Ret tt (set_jobQueue (fun q => q ++ [p]) s)
    else Blocked s.

(** One firing of the closure [scheduleJob] hands to [Cron.AddFunc], for
    the job [p] it captured. *)
Definition cronFire (p : loc) (now : Z) : M unit :=
  job <- deref p ;;
  if seconds (TimeFrame job) <? Since now (CreatedAt job) then ret tt
  else
    mu_RLock ;;
    cur <- gets (fun s => jobs s !! JobID job) ;;
    match cur with
    | None => panic
    | Some q =>
        currentJob <- deref q ;;
        let shouldQueue :=
          negb (String.eqb (Status currentJob) "processing") &&
          negb (String.eqb (Status currentJob) "completed") &&
          negb (String.eqb (Status currentJob) "failed") in
        mu_RUnlock ;;
        if shouldQueue then jobQueue_send p else ret tt
    end.

Definition SetResourceLimits (cpuThreshold memoryThreshold : spec_float) : M unit :=
  mu_Lock ;;
  modify (set_resources (fun r =>
    mkResources (CPUUsage r) (MemoryUsage r) cpuThreshold memoryThreshold)) ;;
  mu_Unlock.

(** A value of the [map[string]interface{}] that [GetJobDetails] builds. *)
Inductive value :=
| VString (s : string)
| VTime (t : Z)
| VInt (n : Z).

Definition details_of (job : Job) : gmap string value :=
  <["job_id"%string := VString (JobID job)]>
  (<["status"%string := VString (Status job)]>
  (<["created_at"%string := VTime (CreatedAt job)]>
  (<["last_executed"%string := VTime (LastExecuted job)]>
  (<["current_retries"%string := VInt (CurrentRetries job)]>
  (<["time_frame"%string := VInt (TimeFrame job)]>
  (<["time_interval"%string := VInt (TimeInterval job)]>
  (<["error"%string := VString (Error job)]> ∅))))))).

Definition GetJobDetails (jobID : string) : M (gmap string value + error) :=
  mu_RLock ;;
  o <- gets (fun s => jobs s !! jobID) ;;
  match o with
  | None => mu_RUnlock ;; ret (inr (ErrJobNotFound jobID))
  | Some p =>
      job <- deref p ;;
      mu_RUnlock ;;
      ret (inl (details_of job))
  end.

(** One tick of the loop of [processWaitingQueue]. *)
Definition processWaitingQueue_tick : M unit :=
  available <- gets checkResourceAvailability ;;
  if available then
    waitingQueueMu_Lock ;;
    q <- gets waitingQueue ;;
    match q with
    | nextJob :: rest =>
        modify (set_waitingQueue (fun _ => rest)) ;;
        waitingQueueMu_Unlock ;;
        mu_Lock ;;
        err <- scheduleJob (JobPtr nextJob) ;;
        mu_Unlock ;;
        ret tt
    | [] => waitingQueueMu_Unlock
    end
  else ret tt.

(** ** [job.go] *)

Definition with_Status (v : string) (j : Job) : Job :=
  mkJob (JobID j) v (CreatedAt j) (TimeFrame j) (TimeInterval j)
    (MaxRetries j) (CurrentRetries j) (LastExecuted j) (Error j).
Definition with_LastExecuted (v : Z) (j : Job) : Job :=
  mkJob (JobID j) (Status j) (CreatedAt j) (TimeFrame j) (TimeInterval j)
    (MaxRetries j) (CurrentRetries j) v (Error j).
Definition with_Error (v : string) (j : Job) : Job :=
  mkJob (JobID j) (Status j) (CreatedAt j) (TimeFrame j) (TimeInterval j)
    (MaxRetries j) (CurrentRetries j) (LastExecuted j) v.
Definition with_CurrentRetries (v : Z) (j : Job) : Job :=
  mkJob (JobID j) (Status j) (CreatedAt j) (TimeFrame j) (TimeInterval j)
    (MaxRetries j) v (LastExecuted j) (Error j).

(** [job.f = ...] through the pointer [p]. *)
Definition assign (p : loc) (f : Job -> Job) : M unit :=
  job <- deref p ;; store p (f job).

(** What one execution of [processJob] draws from outside the scheduler. *)
Record Attempt := mkAttempt {
  rand_keeper : nat;                  (* [rand.Intn] for the default quorum *)
  rand_quorum : nat;                  (* the quorum the map iteration meets first *)
  rand_select : nat;                  (* [rand.Intn] of [selectRandomKeeper] *)
  succeeded : bool;                   (* [rand.Float64() < 0.8] *)
  peerInfos : option (list string);   (* names in the peer file; [None]: it did not load *)
  connectOk : bool;                   (* [discovery.ConnectToPeer] *)
  sendErr : option string             (* [messaging.SendMessage] *)
}.

(** [ActiveNodes[rand.Intn(len(ActiveNodes))]] with the draw [r]. *)
Definition pick (r : nat) (nodes : list string) : string :=
  default ""%string (nodes !! (r mod length nodes)%nat).

Definition has_active (kq : string * Quorum) : bool :=
  negb (length (ActiveNodes kq.2) =? 0)%nat.

(** [selectRandomKeeper]: [None] stands for either of its two errors.  The
    loop returns at the first quorum with an active node that the map
    iteration yields. *)
Definition selectRandomKeeper (a : Attempt) : M (option string) :=
  mu_RLock ;;
  qs <- gets (fun s => map_to_list (quorums s)) ;;
  match qs with
  | [] => mu_RUnlock ;; ret None
  | _ =>
      let candidates := filter (fun kq => has_active kq = true) qs in
      match candidates !! (rand_quorum a mod length candidates)%nat with
      | Some kq => mu_RUnlock ;; ret (Some (pick (rand_select a) (ActiveNodes kq.2)))
      | None => mu_RUnlock ;; ret None
      end
  end.

Definition terminal (status : string) : bool :=
  String.eqb status "completed" || String.eqb status "failed".

(** [processJob] up to the first [js.mu.Unlock()]: [Some keeperName] when
    the routine goes on, [None] when it has returned. *)
Definition processJob_begin (p : loc) (now : Z) (a : Attempt) : M (option string) :=
  mu_Lock ;;
  job <- deref p ;;
  if terminal (Status job) then mu_Unlock ;; ret None
  else
    assign p (with_Status "processing") ;;
    assign p (with_LastExecuted now) ;;
    oq <- gets (fun s => quorums s !! "default"%string) ;;
    match oq with
    | None => panic
    | Some quorum =>
        if (length (ActiveNodes quorum) =? 0)%nat then
          assign p (with_Status "failed") ;;
          assign p (with_Error "no active keepers available") ;;
          mu_Unlock ;;
          ret None
        else
          let keeperName := pick (rand_keeper a) (ActiveNodes quorum) in
          mu_Unlock ;;
          ret (Some keeperName)
    end.

(** [processJob] from the second [js.mu.Lock()] on.  The unlock is
    deferred, so it is written on every return. *)
Definition processJob_finish (p : loc) (keeperName : string) (a : Attempt) : M unit :=
  mu_Lock ;;
  (if succeeded a then assign p (with_Status "completed")
   else
     assign p (fun j => with_CurrentRetries (wrap64 (CurrentRetries j + 1)) j) ;;
     job <- deref p ;;
     if MaxRetries job <=? CurrentRetries job then
       assign p (with_Status "failed") ;;
       assign p (with_Error "maximum retries exceeded")
     else assign p (with_Status "pending")) ;;
  match peerInfos a with
  | None => mu_Unlock
  | Some infos =>
      if negb (existsb (String.eqb keeperName) infos) then mu_Unlock
      else if negb (connectOk a) then mu_Unlock
      else
        match sendErr a with
        | Some msg =>
            mu_Lock ;;
            assign p (with_Status "failed") ;;
            assign p (with_Error msg) ;;
            mu_Unlock ;;
            mu_Unlock
        | None => mu_Unlock
        end
  end.

(** [processJob]; the worker number only appears in log lines, and the
    result of [SendJobToKeeper] is only logged. *)
Definition processJob (p : loc) (now : Z) (a : Attempt) : M unit :=
  k <- processJob_begin p now a ;;
  match k with
  | None => ret tt
  | Some keeperName =>
      selected <- selectRandomKeeper a ;;
      match selected with
      | None => ret tt
      | Some _ => processJob_finish p keeperName a
      end
  end.

(** [GetSystemMetrics]. *)
Definition GetSystemMetrics : M SystemResources :=
  mu_RLock ;;
  r <- gets resources ;;
  mu_RUnlock ;;
  ret r.

Definition waitingQueueMu_RLock : M unit :=
  fun s => match RWMutex_RLock (waitingQueueMu s) with
           | Some m => Ret tt (set_waitingQueueMu m s) | None => Blocked s end.
Definition waitingQueueMu_RUnlock : M unit :=
  fun s => match RWMutex_RUnlock (waitingQueueMu s) with
           | Some m => Ret tt (set_waitingQueueMu m s) | None => Panic s end.

(** A value of the map [GetQueueStatus] builds: a length or a percentage. *)
Inductive metric :=
| MInt (n : Z)
| MFloat (x : spec_float).

Definition status_of (s : JobScheduler) : gmap string metric :=
  <["active_jobs"%string := MInt (Z.of_nat (size (jobs s)))]>
  (<["waiting_jobs"%string := MInt (Z.of_nat (length (waitingQueue s)))]>
  (<["cpu_usage"%string := MFloat (CPUUsage (resources s))]>
  (<["memory_usage"%string := MFloat (MemoryUsage (resources s))]> ∅))).

(** [GetQueueStatus]; the two deferred unlocks run last registered first. *)
Definition GetQueueStatus : M (gmap string metric) :=
  mu_RLock ;;
  waitingQueueMu_RLock ;;
  status <- gets status_of ;;
  waitingQueueMu_RUnlock ;;
  mu_RUnlock ;;
  ret status.

(** One receive of a worker of [startWorkers]: the head of the ready
    queue, then [processJob] on it.  With nothing to receive the worker
    waits. *)
Definition worker_receive (now : Z) (a : Attempt) : M unit :=
  q <- gets jobQueue ;;
  match q with
  | [] => block
  | p :: rest =>
      modify (set_jobQueue (fun _ => rest)) ;;
      processJob p now a
  end.

(** The one-shot [time.AfterFunc] of [scheduleJob] fires: the head timer
    is consumed and its job executed. *)
Definition timer_fire (now : Z) (a : Attempt) : M unit :=
  ts <- gets timers ;;
  match ts with
  | [] => ret tt
  | (_, p) :: rest =>
      modify (set_timers (fun _ => rest)) ;;
      processJob p now a
  end.

(** The cron facility fires its [i]-th entry. *)
Definition cron_tick (i : nat) (now : Z) : M unit :=
  es <- gets (fun s => entries (Cron s)) ;;
  match es !! i with
  | Some e => cronFire (EntryJob e) now
  | None => ret tt
  end.

(** ** Runs of the scheduler

    The actors of the program, one event each; a run applies them in
    turn, each event to the state the previous one left.  A call that
    blocks stays where it is: what it would do once woken is not part of
    the run. *)
Inductive Event :=
| EvAddJob (p : loc) (now : Z)
| EvCronFire (i : nat) (now : Z)
| EvProcessJob (p : loc) (now : Z) (a : Attempt)
| EvWorker (now : Z) (a : Attempt)
| EvTimer (now : Z) (a : Attempt)
| EvPromote
| EvSample (cpu mem : option spec_float)
| EvSetLimits (cpuThreshold memoryThreshold : spec_float).

Definition step (e : Event) (s : JobScheduler) : JobScheduler :=
  match e with
  | EvAddJob p now => after (AddJob p now s)
  | EvCronFire i now => after (cron_tick i now s)
  | EvProcessJob p now a => after (processJob p now a s)
  | EvWorker now a => after (worker_receive now a s)
  | EvTimer now a => after (timer_fire now a s)
  | EvPromote => after (processWaitingQueue_tick s)
  | EvSample cpu mem => after (monitorResources_tick cpu mem s)
  | EvSetLimits c m => after (SetResourceLimits c m s)
  end.

Definition run (es : list Event) (s : JobScheduler) : JobScheduler :=
  fold_left (fun s e => step e s) es s.

(** * Sample schedulers

    The states the statements below are exercised on.  The jobs are those
    of [cmd/manager/main.go] ([job_1]: time frame 120 s, interval 15 s, two
    retries) and variations of them. *)

(** A parser for the sample states: it accepts the [@every ...]
    descriptors, the only specs [scheduleJob] builds. *)
Definition every_parser (spec : string) : bool := String.prefix "@every " spec.

Definition job_1 : Job :=
  mkJob "job_1" "pending" 0 120 15 2 0 0 "".

(** The clock reading of the sample calls: one second after [job_1] was
    created. *)
Definition t1 : Z := 1 * Second.

(** A new scheduler, and the caller's [job_1] at address 1. *)
Definition idle : JobScheduler :=
  set_heap (fun _ => {[ 1%positive := job_1 ]}) (NewJobScheduler 5 every_parser 0).

(** The same with a CPU sample of 40 %, over the threshold of 10 %. *)
Definition float_40 : spec_float := S754_finite false 5629499534213120 (-47).
Definition busy : JobScheduler :=
  after (monitorResources_tick (Some float_40) None idle).

(** The same with a CPU sample of exactly 10 %. *)
Definition at_threshold : JobScheduler :=
  after (monitorResources_tick (Some float_10) None idle).

(** [job_1] with a time frame of 0, with an interval of 0, and with no
    retry allowed. *)
Definition job_no_frame : Job := mkJob "job_1" "pending" 0 0 15 2 0 0 "".
Definition job_no_interval : Job := mkJob "job_1" "pending" 0 120 0 2 0 0 "".
Definition job_no_retry : Job := mkJob "job_1" "pending" 0 120 15 0 0 0 "".

Definition idle_with (j : Job) : JobScheduler :=
  set_heap (fun _ => {[ 1%positive := j ]}) (NewJobScheduler 5 every_parser 0).

(** [job_1] admitted with capacity: in the registry, with its trigger. *)
Definition admitted : JobScheduler := after (AddJob 1%positive t1 idle).

(** [job_1] and a second job in the waiting queue of a scheduler that has
    capacity again. *)
Definition job_2 : Job := mkJob "job_2" "pending" 0 60 5 3 0 0 "".
Definition queued : JobScheduler :=
  set_waitingQueue
    (fun _ => [mkWaitingJob 1%positive (31 * Second);
               mkWaitingJob 2%positive (32 * Second)])
    (set_heap (fun _ => {[ 1%positive := job_1; 2%positive := job_2 ]})
       (NewJobScheduler 5 every_parser 0)).

(** A scheduler whose default quorum has lost its nodes. *)
Definition no_nodes : JobScheduler :=
  set_quorums
    <["default"%string := mkQuorum "default" 3 [] "active" "chain_1" 0 0]> idle.

(** An attempt that fails (the draw is above 0.8) with no peer file, and
    one that succeeds. *)
Definition failing : Attempt := mkAttempt 0 0 0 false None true None.
Definition succeeding : Attempt := mkAttempt 0 0 0 true None true None.

(** A registry with one job in [processing]: created at 0, last executed
    at 50 s, time frame 100 s. *)
Definition job_running : Job :=
  mkJob "job_1" "processing" 0 100 15 2 0 (50 * Second) "".
Definition running : JobScheduler :=
  set_jobs <["job_1"%string := 1%positive]> (idle_with job_running).

(** The estimate as the design document words it: the earliest, over the
    registry jobs in [processing], of last-executed time plus time frame;
    [now] plus 30 s when there is none. *)
Definition documented_estimate (now : Z) (s : JobScheduler) : Z :=
  let completions :=
    omap (fun kp : string * loc =>
            match heap s !! kp.2 with
            | Some j =>
                if String.eqb (Status j) "processing"
                then Some (LastExecuted j + TimeFrame j * Second)
                else None
            | None => None
            end) (map_to_list (jobs s)) in
  match completions with
  | [] => now + 30 * Second
  | c :: cs => fold_right Z.min c cs
  end.

(** * Properties *)

(** ** Proof tools *)

Ltac go_unfold :=
  unfold assign in *; unfold store in *;
  unfold bind, ret, gets, modify, block, panic, deref, store,
    mu_Lock, mu_Unlock, mu_RLock, mu_RUnlock,
    waitingQueueMu_Lock, waitingQueueMu_Unlock, jobQueue_send in *.

Ltac go_simpl :=
  cbn [heap jobs quorums jobQueue waitingQueue resources Cron timers mu
       workersCount metricsInterval waitingQueueMu
       set_heap set_jobs set_quorums set_jobQueue set_waitingQueue
       set_resources set_Cron set_timers set_mu set_waitingQueueMu
       RWMutex_Lock RWMutex_Unlock RWMutex_RLock RWMutex_RUnlock
       after parser entries negb andb orb
       JobID Status CreatedAt TimeFrame TimeInterval MaxRetries
       CurrentRetries LastExecuted Error
       with_Status with_LastExecuted with_Error with_CurrentRetries
       JobPtr EstimatedTime Spec EntryJob] in *.

(** Symbolic execution: simplify, use the given rewriting step, collapse
    repeated stores. *)
Ltac go_with tac :=
  repeat first
    [ progress go_simpl
    | tac
    | rewrite lookup_insert_eq
    | rewrite insert_insert_eq ].

(** Equality of two states written with setters. *)
Ltac go_eq :=
  unfold set_heap, set_jobs, set_quorums, set_jobQueue, set_waitingQueue,
    set_resources, set_Cron, set_timers, set_mu, set_waitingQueueMu;
  go_simpl; rewrite ?insert_insert_eq; try reflexivity.

Lemma String_eqb_false (a b : string) : a ≠ b -> String.eqb a b = false.
Proof. intros H. destruct (String.eqb_spec a b); [contradiction | reflexivity]. Qed.

Lemma terminal_false (status : string) :
  status ≠ "completed"%string -> status ≠ "failed"%string -> terminal status = false.
Proof.
  intros H1 H2. unfold terminal.
  rewrite (String_eqb_false _ _ H1), (String_eqb_false _ _ H2). reflexivity.
Qed.

(** *** Arithmetic of durations *)

Lemma wrap64_range (x : Z) : MinInt64 <= wrap64 x <= MaxInt64.
Proof.
  unfold wrap64, MinInt64, MaxInt64.
  pose proof (Z.mod_pos_bound (x + 2 ^ 63) (2 ^ 64) ltac:(lia)). lia.
Qed.

Lemma wrap64_id (x : Z) : int64 x -> wrap64 x = x.
Proof.
  unfold int64, wrap64, MinInt64, MaxInt64. intros H.
  rewrite Z.mod_small by lia. lia.
Qed.

Lemma wrap64_mul_Second (n : Z) : wrap64 (wrap64 n * Second) = wrap64 (n * Second).
Proof.
  unfold wrap64.
  f_equal.
  replace ((n + 2 ^ 63) mod 2 ^ 64 - 2 ^ 63) with
    (n + (- ((n + 2 ^ 63) / 2 ^ 64)) * 2 ^ 64)
    by (pose proof (Z.div_mod (n + 2 ^ 63) (2 ^ 64) ltac:(lia)); lia).
  replace ((n + - ((n + 2 ^ 63) / 2 ^ 64) * 2 ^ 64) * Second + 2 ^ 63)
    with (n * Second + 2 ^ 63 + (- ((n + 2 ^ 63) / 2 ^ 64) * Second) * 2 ^ 64) by ring.
  apply Z.mod_add. lia.
Qed.

(** A whole number of seconds is a multiple of 512 nanoseconds, also after
    wrapping; the largest duration is odd. *)
Lemma seconds_mod_512 (n : Z) : seconds n mod 512 = 0.
Proof.
  unfold seconds. rewrite wrap64_mul_Second. unfold wrap64, Second.
  pose proof (Z.div_mod (n * 1000000000 + 2 ^ 63) (2 ^ 64) ltac:(lia)) as H.
  replace ((n * 1000000000 + 2 ^ 63) mod 2 ^ 64 - 2 ^ 63) with
    (0 + (n * 1953125 - ((n * 1000000000 + 2 ^ 63) / 2 ^ 64) * 2 ^ 55) * 512) by lia.
  rewrite Z.mod_add by lia. reflexivity.
Qed.

Lemma seconds_small (n : Z) :
  MinInt64 <= n * Second <= MaxInt64 -> seconds n = n * Second.
Proof.
  intros H. unfold seconds. rewrite wrap64_mul_Second. apply wrap64_id. exact H.
Qed.

(** The guard of the timer closure: once the job's age exceeds its time
    frame, [time.Since(job.CreatedAt) > time.Duration(job.TimeFrame) *
    time.Second] holds, whatever the saturation of [Since] and the
    wrap-around of the product. *)
Lemma aged_out_guard (T created now : Z) :
  0 < T -> T * Second < now - created ->
  (seconds T <? Since now created) = true.
Proof.
  intros HT Hage. apply Z.ltb_lt.
  pose proof (seconds_mod_512 T) as Hmod.
  assert (Hr : MinInt64 <= seconds T <= MaxInt64)
    by (unfold seconds; apply wrap64_range).
  assert (Hmax : seconds T <> MaxInt64).
  { intros E. rewrite E in Hmod. unfold MaxInt64 in Hmod.
    vm_compute in Hmod. discriminate. }
  unfold Since, Time_Sub.
  destruct (Z.ltb_spec MaxInt64 (now - created)) as [Hbig | Hfit]; [lia |].
  assert (Hpos : 0 < T * Second) by (unfold Second; lia).
  destruct (Z.ltb_spec (now - created) MinInt64) as [Hneg | _].
  - unfold MinInt64 in Hneg. lia.
  - rewrite seconds_small; [lia |]. unfold MinInt64. lia.
Qed.

(** *** Single calls *)

Lemma AddJob_invalid (js : JobScheduler) (p : loc) (now : Z) (job : Job) :
  heap js !! p = Some job -> TimeFrame job <= 0 ->
  AddJob p now js = Ret (Some ErrInvalidTimeframe) js.
Proof.
  intros Hp Htf. unfold AddJob. go_unfold. rewrite Hp.
  destruct (Z.leb_spec (TimeFrame job) 0); [reflexivity | lia].
Qed.

(** What [scheduleJob] does to a state in which the job exists: the
    registry entry, the one-shot timer and, when the spec parses, the cron
    entry. *)
Definition scheduled (p : loc) (job : Job) (s : JobScheduler) : JobScheduler :=
  set_Cron (fun c => mkCron (parser c)
              (if parser c (cronSpec_of job)
               then entries c ++ [mkEntry (cronSpec_of job) p]
               else entries c))
    (set_timers (fun ts => ts ++ [(2 * Second, p)])
       (set_jobs <[JobID job := p]> s)).

Definition scheduleJob_result (job : Job) (s : JobScheduler) : option error :=
  if parser (Cron s) (cronSpec_of job) then None
  else Some (ErrScheduleFailed (cronSpec_of job)).

Lemma scheduleJob_spec (js : JobScheduler) (p : loc) (job : Job) :
  heap js !! p = Some job ->
  scheduleJob p js = Ret (scheduleJob_result job js) (scheduled p job js).
Proof.
  intros Hp. unfold scheduleJob, Cron_AddFunc, scheduled, scheduleJob_result.
  go_unfold. rewrite Hp. go_simpl.
  destruct js as [h jb qs jq wq rs [prs ents] ts m wc mi wm]. go_simpl.
  destruct (prs (cronSpec_of job)) eqn:E; go_eq; rewrite E; reflexivity.
Qed.

(** With capacity and no lock held, [AddJob] is [scheduleJob] between
    [Lock] and [Unlock]. *)
Lemma AddJob_capacity (js : JobScheduler) (p : loc) (now : Z) (job : Job) :
  mu js = Unlocked -> heap js !! p = Some job -> 0 < TimeFrame job ->
  checkResourceAvailability js = true ->
  AddJob p now js = Ret (scheduleJob_result job js) (scheduled p job js).
Proof.
  intros Hmu Hp Htf Hcap. unfold AddJob.
  unfold bind at 1. unfold deref at 1. rewrite Hp.
  destruct (Z.leb_spec (TimeFrame job) 0); [lia |].
  unfold bind at 1. unfold mu_Lock. rewrite Hmu. go_simpl.
  unfold bind at 1. unfold gets at 1.
  replace (checkResourceAvailability (set_mu WLocked js)) with true
    by (symmetry; exact Hcap).
  go_simpl. unfold bind at 1.
  rewrite (scheduleJob_spec _ p job) by exact Hp.
  unfold bind, mu_Unlock, ret, scheduled, scheduleJob_result.
  destruct js as [h jb qs jq wq rs [prs ents] ts m wc mi wm].
  cbn in Hmu. subst m. reflexivity.
Qed.

(** Under resource pressure [AddJob] takes the write lock and then waits
    for the read lock of the same mutex in [calculateEstimatedWaitTime]:
    the call does not return, and nothing but the lock has changed. *)
Lemma AddJob_pressure (js : JobScheduler) (p : loc) (now : Z) (job : Job) :
  mu js = Unlocked -> heap js !! p = Some job -> 0 < TimeFrame job ->
  checkResourceAvailability js = false ->
  AddJob p now js = Blocked (set_mu WLocked js).
Proof.
  intros Hmu Hp Htf Hcap. unfold AddJob.
  unfold bind at 1. unfold deref at 1. rewrite Hp.
  destruct (Z.leb_spec (TimeFrame job) 0); [lia |].
  unfold bind at 1. unfold mu_Lock. rewrite Hmu. go_simpl.
  unfold bind at 1. unfold gets at 1.
  replace (checkResourceAvailability (set_mu WLocked js)) with false
    by (symmetry; exact Hcap).
  go_simpl. unfold calculateEstimatedWaitTime. go_unfold. go_simpl.
  reflexivity.
Qed.

(** An aged-out firing returns at once. *)
Lemma cronFire_aged_out (js : JobScheduler) (p : loc) (now : Z) (job : Job) :
  heap js !! p = Some job -> 0 < TimeFrame job ->
  TimeFrame job * Second < now - CreatedAt job ->
  cronFire p now js = Ret tt js.
Proof.
  intros Hp HT Hage. unfold cronFire. go_unfold. rewrite Hp.
  rewrite aged_out_guard by assumption. reflexivity.
Qed.

(** *** The per-job routine, phase by phase *)

(** The job record after the first critical section, after a failed keeper
    lookup, and after the attempt is resolved. *)
Definition begun (now : Z) (j : Job) : Job :=
  with_LastExecuted now (with_Status "processing" j).

Definition no_keepers (j : Job) : Job :=
  with_Error "no active keepers available" (with_Status "failed" j).

Definition resolved (a : Attempt) (j : Job) : Job :=
  if succeeded a then with_Status "completed" j
  else
    let j1 := with_CurrentRetries (wrap64 (CurrentRetries j + 1)) j in
    if MaxRetries j1 <=? CurrentRetries j1
    then with_Error "maximum retries exceeded" (with_Status "failed" j1)
    else with_Status "pending" j1.

(** The dispatch reaches [SendMessage] and it fails: the branch that locks
    [js.mu] a second time. *)
Definition send_fails (keeperName : string) (a : Attempt) : bool :=
  match peerInfos a with
  | None => false
  | Some infos =>
      existsb (String.eqb keeperName) infos && connectOk a &&
      match sendErr a with Some _ => true | None => false end
  end.

Lemma set_heap_insert_twice (p : loc) (j j' : Job) (s : JobScheduler) :
  set_heap <[p := j']> (set_heap <[p := j]> s) = set_heap <[p := j']> s.
Proof. unfold set_heap. go_simpl. rewrite insert_insert_eq. reflexivity. Qed.

Lemma processJob_begin_terminal (js : JobScheduler) p now a job :
  mu js = Unlocked -> heap js !! p = Some job ->
  terminal (Status job) = true ->
  processJob_begin p now a js = Ret None js.
Proof.
  intros Hmu Hp Ht. unfold processJob_begin. go_unfold.
  go_with ltac:(first [rewrite Hmu | rewrite Hp | rewrite Ht]).
  rewrite <- Hmu. destruct js; reflexivity.
Qed.

Lemma processJob_begin_no_quorum (js : JobScheduler) p now a job :
  mu js = Unlocked -> heap js !! p = Some job ->
  terminal (Status job) = false ->
  quorums js !! "default"%string = None ->
  processJob_begin p now a js
  = Panic (set_mu WLocked (set_heap <[p := begun now job]> js)).
Proof.
  intros Hmu Hp Ht Hq. unfold processJob_begin. go_unfold.
  go_with ltac:(first [rewrite Hmu | rewrite Hp | rewrite Ht | rewrite Hq]).
  unfold begun. go_eq.
Qed.

Lemma processJob_begin_no_keepers (js : JobScheduler) p now a job quorum :
  mu js = Unlocked -> heap js !! p = Some job ->
  terminal (Status job) = false ->
  quorums js !! "default"%string = Some quorum ->
  ActiveNodes quorum = [] ->
  processJob_begin p now a js
  = Ret None (set_heap <[p := no_keepers (begun now job)]> js).
Proof.
  intros Hmu Hp Ht Hq Hn. unfold processJob_begin. go_unfold.
  go_with ltac:(first [rewrite Hmu | rewrite Hp | rewrite Ht | rewrite Hq | rewrite Hn
                      | progress cbn [length Nat.eqb]]).
  rewrite <- Hmu. unfold no_keepers, begun. go_eq.
Qed.

Lemma processJob_begin_keeper (js : JobScheduler) p now a job quorum :
  mu js = Unlocked -> heap js !! p = Some job ->
  terminal (Status job) = false ->
  quorums js !! "default"%string = Some quorum ->
  ActiveNodes quorum ≠ [] ->
  processJob_begin p now a js
  = Ret (Some (pick (rand_keeper a) (ActiveNodes quorum)))
        (set_heap <[p := begun now job]> js).
Proof.
  intros Hmu Hp Ht Hq Hn. unfold processJob_begin. go_unfold.
  destruct (ActiveNodes quorum) as [| n ns] eqn:E; [contradiction |].
  go_with ltac:(first [rewrite Hmu | rewrite Hp | rewrite Ht | rewrite Hq | rewrite E
                      | progress cbn [length Nat.eqb]]).
  rewrite <- Hmu. unfold no_keepers, begun. go_eq.
Qed.

Lemma selectRandomKeeper_finds (js : JobScheduler) (a : Attempt) (quorum : Quorum) :
  mu js = Unlocked ->
  quorums js !! "default"%string = Some quorum -> ActiveNodes quorum ≠ [] ->
  exists k, selectRandomKeeper a js = Ret (Some k) js.
Proof.
  intros Hmu Hq Hn. unfold selectRandomKeeper. go_unfold. rewrite Hmu. go_simpl.
  assert (Hin : ("default"%string, quorum) ∈ map_to_list (quorums js))
    by (apply elem_of_map_to_list; exact Hq).
  destruct (map_to_list (quorums js)) as [| kq qs] eqn:E.
  - inversion Hin.
  - set (cands := filter (fun kq0 => has_active kq0 = true) (kq :: qs)).
    assert (Hc : ("default"%string, quorum) ∈ cands).
    { apply list_elem_of_filter. split; [| exact Hin].
      unfold has_active. cbn [snd]. destruct (ActiveNodes quorum); [contradiction | reflexivity]. }
    assert (Hlen : (0 < length cands)%nat).
    { destruct cands; [inversion Hc | cbn; lia]. }
    destruct (lookup_lt_is_Some_2 cands (rand_quorum a mod length cands)%nat) as [x Hx].
    { apply Nat.mod_upper_bound. lia. }
    rewrite Hx. go_simpl. eexists. rewrite <- Hmu. destruct js; reflexivity.
Qed.

Lemma processJob_finish_spec (js : JobScheduler) p keeperName a job :
  mu js = Unlocked -> heap js !! p = Some job ->
  processJob_finish p keeperName a js =
    if send_fails keeperName a
    then Blocked (set_mu WLocked (set_heap <[p := resolved a job]> js))
    else Ret tt (set_heap <[p := resolved a job]> js).
Proof.
  intros Hmu Hp. unfold processJob_finish, send_fails, resolved. go_unfold.
  destruct (succeeded a);
    [| destruct (Z.leb_spec (MaxRetries job) (wrap64 (CurrentRetries job + 1)))
         as [Hle | Hgt];
       [apply Z.leb_le in Hle | apply Z.leb_gt in Hgt] ];
    destruct (peerInfos a) as [infos |];
    try destruct (existsb (String.eqb keeperName) infos);
    try destruct (connectOk a);
    try destruct (sendErr a);
    go_with ltac:(first [rewrite Hmu | rewrite Hp | rewrite Hle | rewrite Hgt]);
    try (rewrite <- Hmu); go_eq.
Qed.

(** One execution of the routine for a job that is not in a final state,
    with a default quorum that has active nodes. *)
Lemma processJob_attempt (js : JobScheduler) p now a job quorum :
  mu js = Unlocked -> heap js !! p = Some job ->
  terminal (Status job) = false ->
  quorums js !! "default"%string = Some quorum -> ActiveNodes quorum ≠ [] ->
  processJob p now a js =
    if send_fails (pick (rand_keeper a) (ActiveNodes quorum)) a
    then Blocked (set_mu WLocked (set_heap <[p := resolved a (begun now job)]> js))
    else Ret tt (set_heap <[p := resolved a (begun now job)]> js).
Proof.
  intros Hmu Hp Ht Hq Hn. unfold processJob. unfold bind at 1.
  rewrite (processJob_begin_keeper js p now a job quorum) by assumption.
  set (s1 := set_heap <[p := begun now job]> js).
  destruct (selectRandomKeeper_finds s1 a quorum) as [k Hk]; [exact Hmu | exact Hq | exact Hn |].
  unfold bind at 1. rewrite Hk.
  rewrite (processJob_finish_spec s1 p _ a (begun now job));
    [| exact Hmu | unfold s1; go_simpl; apply lookup_insert_eq].
  unfold s1. rewrite !set_heap_insert_twice. reflexivity.
Qed.

(** A job in a final state: the routine returns at its guard. *)
Lemma processJob_terminal (js : JobScheduler) p now a job :
  mu js = Unlocked -> heap js !! p = Some job ->
  terminal (Status job) = true ->
  processJob p now a js = Ret tt js.
Proof.
  intros Hmu Hp Ht. unfold processJob. unfold bind at 1.
  rewrite (processJob_begin_terminal js p now a job) by assumption.
  reflexivity.
Qed.

Lemma processJob_no_keepers (js : JobScheduler) p now a job quorum :
  mu js = Unlocked -> heap js !! p = Some job ->
  terminal (Status job) = false ->
  quorums js !! "default"%string = Some quorum -> ActiveNodes quorum = [] ->
  processJob p now a js = Ret tt (set_heap <[p := no_keepers (begun now job)]> js).
Proof.
  intros Hmu Hp Ht Hq Hn. unfold processJob. unfold bind at 1.
  rewrite (processJob_begin_no_keepers js p now a job quorum) by assumption.
  reflexivity.
Qed.

(** What an execution of the routine can do to the heap, from any state:
    nothing, or one store sequence on its own job, which was not final. *)
Inductive touched (p : loc) (now : Z) (a : Attempt) (s s' : JobScheduler) : Prop :=
| touched_nothing :
    heap s' = heap s -> touched p now a s s'
| touched_job (j j' : Job) :
    heap s !! p = Some j -> terminal (Status j) = false ->
    heap s' = <[p := j']> (heap s) ->
    j' = begun now j \/ j' = no_keepers (begun now j) \/ j' = resolved a (begun now j) ->
    touched p now a s s'.

Lemma processJob_touched (s : JobScheduler) p now a :
  touched p now a s (after (processJob p now a s)).
Proof.
  destruct (mu s) eqn:Hmu.
  2,3: apply touched_nothing; unfold processJob, processJob_begin; go_unfold;
       rewrite Hmu; reflexivity.
  destruct (heap s !! p) as [job |] eqn:Hp.
  2: { apply touched_nothing. unfold processJob, processJob_begin. go_unfold.
       go_with ltac:(first [rewrite Hmu | rewrite Hp]). reflexivity. }
  destruct (terminal (Status job)) eqn:Ht.
  { rewrite (processJob_terminal s p now a job) by assumption.
    apply touched_nothing. reflexivity. }
  destruct (quorums s !! "default"%string) as [quorum |] eqn:Hq.
  2: { apply (touched_job _ _ _ _ _ job (begun now job)); auto.
       unfold processJob. unfold bind at 1.
       rewrite (processJob_begin_no_quorum s p now a job) by assumption.
       reflexivity. }
  destruct (ActiveNodes quorum) as [| n ns] eqn:Hn.
  { rewrite (processJob_no_keepers s p now a job quorum) by assumption.
    apply (touched_job _ _ _ _ _ job (no_keepers (begun now job))); auto. }
  rewrite (processJob_attempt s p now a job quorum); try assumption.
  2: { rewrite Hn. discriminate. }
  apply (touched_job _ _ _ _ _ job (resolved a (begun now job))); auto.
  destruct (send_fails _ a); reflexivity.
Qed.

(** *** Relations that every step of a method respects *)

Section Keeps.
Variable R : JobScheduler -> JobScheduler -> Prop.
Hypothesis R_refl : forall s, R s s.
Hypothesis R_trans : forall s1 s2 s3, R s1 s2 -> R s2 s3 -> R s1 s3.

(** [m] relates the state it starts from to the state it leaves,
    whatever its outcome. *)
Definition keeps {A} (m : M A) : Prop := forall s, R s (after (m s)).

Lemma keeps_ret {A} (a : A) : keeps (ret a).
Proof. intros s. apply R_refl. Qed.

Lemma keeps_gets {A} (f : JobScheduler -> A) : keeps (gets f).
Proof. intros s. apply R_refl. Qed.

Lemma keeps_block {A} : keeps (@block A).
Proof. intros s. apply R_refl. Qed.

Lemma keeps_panic {A} : keeps (@panic A).
Proof. intros s. apply R_refl. Qed.

Lemma keeps_deref (p : loc) : keeps (deref p).
Proof. intros s. unfold deref. destruct (heap s !! p); apply R_refl. Qed.

Lemma keeps_modify (f : JobScheduler -> JobScheduler) :
  (forall s, R s (f s)) -> keeps (modify f).
Proof. intros H s. apply H. Qed.

Lemma keeps_bind {A B} (m : M A) (k : A -> M B) :
  keeps m -> (forall a, keeps (k a)) -> keeps (bind m k).
Proof.
  intros Hm Hk s. unfold bind. specialize (Hm s).
  destruct (m s) as [a s' | s' | s']; cbn [after] in *; try exact Hm.
  eapply R_trans; [exact Hm | apply Hk].
Qed.

Hypothesis R_mu : forall m s, R s (set_mu m s).
Hypothesis R_waitingQueueMu : forall m s, R s (set_waitingQueueMu m s).

Lemma keeps_mu_Lock : keeps mu_Lock.
Proof. intros s. unfold mu_Lock. destruct (RWMutex_Lock (mu s)); [apply R_mu | apply R_refl]. Qed.
Lemma keeps_mu_Unlock : keeps mu_Unlock.
Proof. intros s. unfold mu_Unlock. destruct (RWMutex_Unlock (mu s)); [apply R_mu | apply R_refl]. Qed.
Lemma keeps_mu_RLock : keeps mu_RLock.
Proof. intros s. unfold mu_RLock. destruct (RWMutex_RLock (mu s)); [apply R_mu | apply R_refl]. Qed.
Lemma keeps_mu_RUnlock : keeps mu_RUnlock.
Proof. intros s. unfold mu_RUnlock. destruct (RWMutex_RUnlock (mu s)); [apply R_mu | apply R_refl]. Qed.
Lemma keeps_waitingQueueMu_Lock : keeps waitingQueueMu_Lock.
Proof.
  intros s. unfold waitingQueueMu_Lock.
  destruct (RWMutex_Lock (waitingQueueMu s)); [apply R_waitingQueueMu | apply R_refl].
Qed.
Lemma keeps_waitingQueueMu_Unlock : keeps waitingQueueMu_Unlock.
Proof.
  intros s. unfold waitingQueueMu_Unlock.
  destruct (RWMutex_Unlock (waitingQueueMu s)); [apply R_waitingQueueMu | apply R_refl].
Qed.

(** Decomposition of a method into its steps; [side] settles what is
    asked of a [modify]. *)
Ltac keeps_steps side :=
  repeat match goal with
    | |- keeps (ret _) => apply keeps_ret
    | |- keeps (gets _) => apply keeps_gets
    | |- keeps block => apply keeps_block
    | |- keeps panic => apply keeps_panic
    | |- keeps (deref _) => apply keeps_deref
    | |- keeps mu_Lock => apply keeps_mu_Lock
    | |- keeps mu_Unlock => apply keeps_mu_Unlock
    | |- keeps mu_RLock => apply keeps_mu_RLock
    | |- keeps mu_RUnlock => apply keeps_mu_RUnlock
    | |- keeps waitingQueueMu_Lock => apply keeps_waitingQueueMu_Lock
    | |- keeps waitingQueueMu_Unlock => apply keeps_waitingQueueMu_Unlock
    | |- keeps (bind _ _) => apply keeps_bind; [| intro ]
    | |- keeps (modify _) => apply keeps_modify; intro; side
    | |- keeps (if ?b then _ else _) => destruct b
    | |- keeps (match ?x with _ => _ end) => destruct x
    end.

Hypothesis R_jobs : forall s id p, R s (set_jobs <[id := p]> s).
Hypothesis R_timers : forall f s, R s (set_timers f s).
Hypothesis R_Cron : forall s spec p,
  R s (set_Cron (fun c => mkCron (parser c) (entries c ++ [mkEntry spec p])) s).
Hypothesis R_resources : forall f s, R s (set_resources f s).
Hypothesis R_jobQueue : forall f s, R s (set_jobQueue f s).

Lemma keeps_earliest_loop (ps : list (string * loc)) (e : Z) :
  keeps (earliest_loop ps e).
Proof.
  revert e. induction ps as [| [id p] ps IH]; intros e; cbn [earliest_loop].
  - apply keeps_ret.
  - apply keeps_bind; [apply keeps_deref | intros job].
    destruct (String.eqb _ _); [destruct (Time_After _ _) |]; apply IH.
Qed.

Lemma keeps_calculateEstimatedWaitTime (now : Z) :
  keeps (calculateEstimatedWaitTime now).
Proof.
  unfold calculateEstimatedWaitTime.
  apply keeps_bind; [apply keeps_mu_RLock | intros _].
  apply keeps_bind; [apply keeps_gets | intros ps].
  apply keeps_bind; [apply keeps_earliest_loop | intros e].
  keeps_steps idtac.
Qed.

Lemma keeps_scheduleJob (p : loc) : keeps (scheduleJob p).
Proof.
  unfold scheduleJob, Cron_AddFunc.
  keeps_steps ltac:(first [apply R_jobs | apply R_timers | apply R_Cron]).
Qed.

Lemma keeps_jobQueue_send (p : loc) : keeps (jobQueue_send p).
Proof.
  intros s. unfold jobQueue_send.
  destruct (_ <? _)%nat; [apply R_jobQueue | apply R_refl].
Qed.

Lemma keeps_cronFire (p : loc) (now : Z) : keeps (cronFire p now).
Proof.
  unfold cronFire.
  keeps_steps idtac; apply keeps_jobQueue_send.
Qed.

Lemma keeps_cron_tick (i : nat) (now : Z) : keeps (cron_tick i now).
Proof.
  unfold cron_tick. apply keeps_bind; [apply keeps_gets | intros es].
  destruct (es !! i); [apply keeps_cronFire | apply keeps_ret].
Qed.

Lemma keeps_monitorResources_tick cpu mem : keeps (monitorResources_tick cpu mem).
Proof. unfold monitorResources_tick. keeps_steps ltac:(apply R_resources). Qed.

Lemma keeps_SetResourceLimits c m : keeps (SetResourceLimits c m).
Proof. unfold SetResourceLimits. keeps_steps ltac:(apply R_resources). Qed.

Lemma keeps_selectRandomKeeper (a : Attempt) : keeps (selectRandomKeeper a).
Proof. unfold selectRandomKeeper. keeps_steps idtac. Qed.

(** The two places that write the waiting queue, and the stores through
    job pointers, are left to each relation. *)
Hypothesis R_pop : forall s w rest,
  waitingQueue s = w :: rest -> R s (set_waitingQueue (fun _ => rest) s).

Lemma keeps_processWaitingQueue_tick : keeps processWaitingQueue_tick.
Proof.
  unfold processWaitingQueue_tick.
  apply keeps_bind; [apply keeps_gets | intros available].
  destruct available; [| apply keeps_ret].
  apply keeps_bind; [apply keeps_waitingQueueMu_Lock | intros _].
  intros s. unfold bind at 1. unfold gets at 1.
  destruct (waitingQueue s) as [| w rest] eqn:Hq.
  - apply keeps_waitingQueueMu_Unlock.
  - revert s Hq.
    change (forall s, waitingQueue s = w :: rest ->
              R s (after ((modify (set_waitingQueue (fun _ => rest)) ;;
                           waitingQueueMu_Unlock ;; mu_Lock ;;
                           err <- scheduleJob (JobPtr w) ;; mu_Unlock ;; ret tt) s))).
    intros s Hq. unfold bind at 1. unfold modify at 1.
    eapply R_trans; [apply (R_pop s w rest Hq) |].
    generalize (set_waitingQueue (fun _ => rest) s). clear s Hq. intros s.
    revert s.
    change (keeps (waitingQueueMu_Unlock ;; mu_Lock ;;
                   err <- scheduleJob (JobPtr w) ;; mu_Unlock ;; ret tt)).
    keeps_steps idtac. apply keeps_scheduleJob.
Qed.

(** The relation along a run, given that the per-job routine, the
    admission and the promoter respect it. *)
Section Runs.
Hypothesis R_processJob : forall p now a, keeps (processJob p now a).

Lemma keeps_worker_receive (now : Z) (a : Attempt) : keeps (worker_receive now a).
Proof.
  unfold worker_receive.
  keeps_steps ltac:(apply R_jobQueue); apply R_processJob.
Qed.

Lemma keeps_timer_fire (now : Z) (a : Attempt) : keeps (timer_fire now a).
Proof.
  unfold timer_fire.
  keeps_steps ltac:(apply R_timers); apply R_processJob.
Qed.

Hypothesis R_AddJob : forall p now, keeps (AddJob p now).
Hypothesis R_tick : keeps processWaitingQueue_tick.

Lemma R_step (e : Event) (s : JobScheduler) : R s (step e s).
Proof.
  destruct e; cbn [step].
  - apply R_AddJob.
  - apply keeps_cron_tick.
  - apply R_processJob.
  - apply keeps_worker_receive.
  - apply keeps_timer_fire.
  - apply R_tick.
  - apply keeps_monitorResources_tick.
  - apply keeps_SetResourceLimits.
Qed.

Lemma R_run (es : list Event) (s : JobScheduler) : R s (run es s).
Proof.
  revert s. induction es as [| e es IH]; intros s; cbn [run fold_left].
  - apply R_refl.
  - eapply R_trans; [apply R_step | apply IH].
Qed.
End Runs.

(** The same, with the promoter decomposed into its steps. *)
Lemma R_run_of_steps :
  (forall p now a, keeps (processJob p now a)) ->
  (forall p now, keeps (AddJob p now)) ->
  forall es s, R s (run es s).
Proof.
  intros HprocessJob HAddJob. apply R_run; try assumption.
  apply keeps_processWaitingQueue_tick.
Qed.

(** [AddJob], when the append to the waiting queue respects [R]. *)
Lemma keeps_AddJob (p : loc) (now : Z) :
  (forall s w, R s (set_waitingQueue (fun q => q ++ [w]) s)) ->
  keeps (AddJob p now).
Proof.
  intros R_push. unfold AddJob.
  keeps_steps ltac:(apply R_push);
    first [ apply keeps_calculateEstimatedWaitTime | apply keeps_scheduleJob ].
Qed.

(** [processJob], when each of its stores respects [R]. *)
Definition job_store (f : Job -> Job) : Prop :=
  f = with_Status "processing" \/ f = with_Status "completed" \/
  f = with_Status "failed" \/ f = with_Status "pending" \/
  (exists t, f = with_LastExecuted t) \/ (exists e, f = with_Error e) \/
  f = (fun j => with_CurrentRetries (wrap64 (CurrentRetries j + 1)) j).

Lemma keeps_processJob (p : loc) (now : Z) (a : Attempt) :
  (forall s p j f, heap s !! p = Some j -> job_store f ->
                   R s (set_heap <[p := f j]> s)) ->
  keeps (processJob p now a).
Proof.
  intros R_store.
  assert (Hassign : forall q f, job_store f -> keeps (assign q f)).
  { intros q f Hf s. unfold assign, bind, deref, store, modify.
    destruct (heap s !! q) as [j |] eqn:Hq; cbn [after].
    - apply R_store; assumption.
    - apply R_refl. }
  unfold processJob, processJob_begin, processJob_finish.
  keeps_steps idtac;
    first [ apply keeps_selectRandomKeeper
          | apply Hassign; unfold job_store; eauto 10 ].
Qed.
End Keeps.

(** *** Job records along a run *)

(** Every job of the first heap is still there in the second, related by
    [Q] to what it was. *)
Definition heap_rel (Q : Job -> Job -> Prop) (s s' : JobScheduler) : Prop :=
  forall p j, heap s !! p = Some j -> exists j', heap s' !! p = Some j' /\ Q j j'.

Section HeapRel.
Variable Q : Job -> Job -> Prop.
Hypothesis Q_refl : forall j, Q j j.
Hypothesis Q_trans : forall j1 j2 j3, Q j1 j2 -> Q j2 j3 -> Q j1 j3.

Lemma heap_rel_same (s s' : JobScheduler) : heap s' = heap s -> heap_rel Q s s'.
Proof. intros E p j Hp. exists j. rewrite E. auto. Qed.

Lemma heap_rel_refl (s : JobScheduler) : heap_rel Q s s.
Proof. apply heap_rel_same. reflexivity. Qed.

Lemma heap_rel_trans (s1 s2 s3 : JobScheduler) :
  heap_rel Q s1 s2 -> heap_rel Q s2 s3 -> heap_rel Q s1 s3.
Proof.
  intros H12 H23 p j Hp.
  destruct (H12 p j Hp) as (j2 & Hp2 & Hq2).
  destruct (H23 p j2 Hp2) as (j3 & Hp3 & Hq3).
  exists j3. split; [exact Hp3 | eapply Q_trans; eassumption].
Qed.

(** What the routine stores must be related to what it found. *)
Hypothesis Q_processJob : forall now a j,
  terminal (Status j) = false ->
  Q j (begun now j) /\ Q j (no_keepers (begun now j)) /\
  Q j (resolved a (begun now j)).

Lemma heap_rel_processJob (p : loc) (now : Z) (a : Attempt) :
  keeps (heap_rel Q) (processJob p now a).
Proof.
  intros s. destruct (processJob_touched s p now a) as [E | j j' Hp Ht E Hj'].
  - apply heap_rel_same. exact E.
  - intros q j0 Hq. rewrite E. destruct (decide (q = p)) as [-> | Hne].
    + rewrite lookup_insert_eq. exists j'. split; [reflexivity |].
      assert (j0 = j) by congruence. subst j0.
      destruct (Q_processJob now a j Ht) as (H1 & H2 & H3).
      destruct Hj' as [-> | [-> | ->]]; assumption.
    + rewrite lookup_insert_ne by congruence. exists j0. auto.
Qed.

Lemma heap_rel_run (es : list Event) (s : JobScheduler) :
  heap_rel Q s (run es s).
Proof.
  apply (R_run_of_steps (heap_rel Q)).
  - apply heap_rel_refl.
  - apply heap_rel_trans.
  - intros; apply heap_rel_same; reflexivity.
  - intros; apply heap_rel_same; reflexivity.
  - intros; apply heap_rel_same; reflexivity.
  - intros; apply heap_rel_same; reflexivity.
  - intros; apply heap_rel_same; reflexivity.
  - intros; apply heap_rel_same; reflexivity.
  - intros; apply heap_rel_same; reflexivity.
  - intros; apply heap_rel_same; reflexivity.
  - apply heap_rel_processJob.
  - intros p now. apply keeps_AddJob.
    + apply heap_rel_refl.
    + apply heap_rel_trans.
    + intros; apply heap_rel_same; reflexivity.
    + intros; apply heap_rel_same; reflexivity.
    + intros; apply heap_rel_same; reflexivity.
    + intros; apply heap_rel_same; reflexivity.
    + intros; apply heap_rel_same; reflexivity.
    + intros; apply heap_rel_same; reflexivity.
Qed.
End HeapRel.

(** The fields no method assigns. *)
Definition same_static (j j' : Job) : Prop :=
  JobID j' = JobID j /\ CreatedAt j' = CreatedAt j /\
  TimeFrame j' = TimeFrame j /\ TimeInterval j' = TimeInterval j /\
  MaxRetries j' = MaxRetries j.

Lemma run_static (es : list Event) (s : JobScheduler) :
  heap_rel same_static s (run es s).
Proof.
  apply heap_rel_run.
  - intros j. unfold same_static. auto.
  - intros j1 j2 j3 (A1 & A2 & A3 & A4 & A5) (B1 & B2 & B3 & B4 & B5).
    unfold same_static. repeat split; congruence.
  - intros now a j _. unfold same_static, resolved, no_keepers, begun.
    destruct (succeeded a); [| destruct (_ <=? _)]; go_simpl; auto 10.
Qed.

(** Cron entries are only ever appended. *)
Definition entries_kept (s s' : JobScheduler) : Prop :=
  forall i e, entries (Cron s) !! i = Some e -> entries (Cron s') !! i = Some e.

Lemma run_entries (es : list Event) (s : JobScheduler) :
  entries_kept s (run es s).
Proof.
  assert (Hrefl : forall s, entries_kept s s) by (intros ? ? ? H; exact H).
  assert (Htrans : forall s1 s2 s3,
             entries_kept s1 s2 -> entries_kept s2 s3 -> entries_kept s1 s3)
    by (intros ? ? ? H1 H2 i e H; apply H2, H1, H).
  assert (Happ : forall s spec p,
             entries_kept s (set_Cron (fun c => mkCron (parser c)
                                         (entries c ++ [mkEntry spec p])) s)).
  { intros s0 spec p i e H. go_simpl. apply lookup_app_l_Some. exact H. }
  apply (R_run_of_steps entries_kept); try assumption;
    try (unfold entries_kept; intros; go_simpl; assumption).
  - intros p now a. apply keeps_processJob; try assumption;
      unfold entries_kept; intros; go_simpl; assumption.
  - intros p now. apply keeps_AddJob; try assumption;
      unfold entries_kept; intros; go_simpl; assumption.
Qed.

(** *** The retry budget *)

(** The counters are Go [int]s. *)
Definition Job_ints (j : Job) : Prop :=
  int64 (CurrentRetries j) /\ int64 (MaxRetries j).

(** The retry count is within the budget, and below it unless the job has
    failed. *)
Definition budget_ok (j : Job) : Prop :=
  CurrentRetries j <= MaxRetries j /\
  (Status j ≠ "failed"%string -> CurrentRetries j < MaxRetries j).

Definition retry_le (j j' : Job) : Prop :=
  MaxRetries j' = MaxRetries j /\
  (Status j = "failed"%string -> j' = j) /\
  (Job_ints j -> budget_ok j ->
   Job_ints j' /\ CurrentRetries j <= CurrentRetries j' /\ budget_ok j').

Lemma retry_le_refl (j : Job) : retry_le j j.
Proof.
  unfold retry_le. split; [reflexivity |]. split; [reflexivity |].
  intros Hi Hb. split; [exact Hi |]. split; [lia | exact Hb].
Qed.

Lemma retry_le_trans (j1 j2 j3 : Job) :
  retry_le j1 j2 -> retry_le j2 j3 -> retry_le j1 j3.
Proof.
  intros (A1 & A2 & A3) (B1 & B2 & B3). unfold retry_le. split; [congruence |].
  split.
  - intros Hf. specialize (A2 Hf). subst j2. auto.
  - intros Hi Hb. destruct (A3 Hi Hb) as (Hi2 & Hle2 & Hb2).
    destruct (B3 Hi2 Hb2) as (Hi3 & Hle3 & Hb3).
    split; [exact Hi3 |]. split; [lia | exact Hb3].
Qed.

Lemma terminal_false_inv (status : string) :
  terminal status = false ->
  status ≠ "completed"%string /\ status ≠ "failed"%string.
Proof.
  unfold terminal. intros H. apply orb_false_iff in H. destruct H as [H1 H2].
  split; intros ->; cbn in *; discriminate.
Qed.

Lemma retry_le_processJob (now : Z) (a : Attempt) (j : Job) :
  terminal (Status j) = false ->
  retry_le j (begun now j) /\ retry_le j (no_keepers (begun now j)) /\
  retry_le j (resolved a (begun now j)).
Proof.
  intros Ht. apply terminal_false_inv in Ht. destruct Ht as [_ Hnf].
  split; [| split].
  - unfold retry_le, begun. go_simpl. split; [reflexivity |].
    split; [intros Hf; contradiction |].
    intros Hi [Hle Hlt]. split; [exact Hi |]. split; [lia |].
    unfold budget_ok. go_simpl. split; [exact Hle | intros _; exact (Hlt Hnf)].
  - unfold retry_le, no_keepers, begun. go_simpl. split; [reflexivity |].
    split; [intros Hf; contradiction |].
    intros Hi [Hle Hlt]. split; [exact Hi |]. split; [lia |].
    unfold budget_ok. go_simpl.
    split; [exact Hle | intros Hc; exfalso; apply Hc; reflexivity].
  - unfold retry_le. split; [| split].
    + unfold resolved, begun. destruct (succeeded a); [| destruct (_ <=? _)]; reflexivity.
    + intros Hf; contradiction.
    + intros [[Hlo Hhi] [Hmlo Hmhi]] [Hle Hlt]. specialize (Hlt Hnf).
      unfold resolved, begun, Job_ints, budget_ok. go_simpl.
      destruct (succeeded a); go_simpl.
      * unfold int64. repeat split; try lia.
      * rewrite wrap64_id by (unfold int64, MinInt64, MaxInt64 in *; lia).
        destruct (Z.leb_spec (MaxRetries j) (CurrentRetries j + 1)); go_simpl.
        -- unfold int64 in *. repeat split; try lia.
           intros Hc; exfalso; apply Hc; reflexivity.
        -- unfold int64 in *. repeat split; try lia.
Qed.

Lemma run_retry (es : list Event) (s : JobScheduler) :
  heap_rel retry_le s (run es s).
Proof.
  apply heap_rel_run.
  - apply retry_le_refl.
  - apply retry_le_trans.
  - intros now a j Ht. apply retry_le_processJob. exact Ht.
Qed.

(** *** The read-only calls and the promoter *)

Lemma RLock_RUnlock (m : RWMutex) :
  m ≠ WLocked ->
  exists m', RWMutex_RLock m = Some m' /\ RWMutex_RUnlock m' = Some m.
Proof.
  destruct m as [| | n]; intros H; [| contradiction |]; eexists; split; reflexivity.
Qed.

Lemma GetJobDetails_absent (js : JobScheduler) (jobID : string) :
  mu js ≠ WLocked -> jobs js !! jobID = None ->
  GetJobDetails jobID js = Ret (inr (ErrJobNotFound jobID)) js.
Proof.
  intros Hmu Hid. destruct (RLock_RUnlock (mu js) Hmu) as (m' & Hl & Hu).
  unfold GetJobDetails. go_unfold.
  go_with ltac:(first [rewrite Hl | rewrite Hid | rewrite Hu]).
  destruct js; reflexivity.
Qed.

Lemma GetJobDetails_present (js : JobScheduler) (jobID : string) (p : loc) (job : Job) :
  mu js ≠ WLocked -> jobs js !! jobID = Some p -> heap js !! p = Some job ->
  GetJobDetails jobID js = Ret (inl (details_of job)) js.
Proof.
  intros Hmu Hid Hp. destruct (RLock_RUnlock (mu js) Hmu) as (m' & Hl & Hu).
  unfold GetJobDetails. go_unfold.
  go_with ltac:(first [rewrite Hl | rewrite Hid | rewrite Hp | rewrite Hu]).
  destruct js; reflexivity.
Qed.

Lemma GetJobDetails_write_locked (js : JobScheduler) (jobID : string) :
  mu js = WLocked -> GetJobDetails jobID js = Blocked js.
Proof. intros Hmu. unfold GetJobDetails. go_unfold. rewrite Hmu. reflexivity. Qed.

Lemma processWaitingQueue_tick_pops (js : JobScheduler) (w : WaitingJob)
      (rest : list WaitingJob) (job : Job) :
  mu js = Unlocked -> waitingQueueMu js = Unlocked ->
  checkResourceAvailability js = true ->
  waitingQueue js = w :: rest -> heap js !! JobPtr w = Some job ->
  processWaitingQueue_tick js =
    Ret tt (scheduled (JobPtr w) job (set_waitingQueue (fun _ => rest) js)).
Proof.
  intros Hmu Hwmu Hcap Hq Hp. unfold processWaitingQueue_tick.
  unfold bind at 1. unfold gets at 1. rewrite Hcap.
  unfold bind at 1. unfold waitingQueueMu_Lock. rewrite Hwmu. go_simpl.
  unfold bind at 1. unfold gets at 1. go_simpl. rewrite Hq.
  unfold bind at 1. unfold modify at 1.
  unfold bind at 1. unfold waitingQueueMu_Unlock at 1. go_simpl.
  unfold bind at 1. unfold mu_Lock at 1. go_simpl. rewrite Hmu. go_simpl.
  unfold bind at 1.
  rewrite (scheduleJob_spec _ (JobPtr w) job) by (go_simpl; exact Hp).
  unfold bind, mu_Unlock, ret, scheduled.
  destruct js as [h jb qs jq wq rs [prs ents] ts m wc mi wm].
  cbn in Hmu, Hwmu. subst m wm. reflexivity.
Qed.

Lemma processWaitingQueue_tick_no_capacity (js : JobScheduler) :
  checkResourceAvailability js = false -> processWaitingQueue_tick js = Ret tt js.
Proof.
  intros Hcap. unfold processWaitingQueue_tick.
  unfold bind at 1. unfold gets at 1. rewrite Hcap. reflexivity.
Qed.

(** *** The estimate *)

(** When the job is expected to complete, as the loop of
    [calculateEstimatedWaitTime] computes it. *)
Definition expectedCompletion (j : Job) : Z :=
  Time_Add (CreatedAt j) (seconds (TimeFrame j)).

Lemma earliest_loop_spec (s : JobScheduler) (ps : list (string * loc)) (e : Z) :
  (forall id p, (id, p) ∈ ps -> is_Some (heap s !! p)) ->
  exists v,
    earliest_loop ps e s = Ret v s /\
    v <= e /\
    (forall id p j, (id, p) ∈ ps -> heap s !! p = Some j ->
       Status j = "processing"%string -> v <= expectedCompletion j) /\
    (v = e \/
     exists id p j, (id, p) ∈ ps /\ heap s !! p = Some j /\
       Status j = "processing"%string /\ v = expectedCompletion j).
Proof.
  revert e. induction ps as [| [id p] ps IH]; intros e Hheap.
  - exists e. cbn [earliest_loop]. unfold ret.
    split; [reflexivity |]. split; [lia |].
    split; [intros ? ? ? Hin; inversion Hin | left; reflexivity].
  - destruct (Hheap id p) as [j Hj]; [left |].
    assert (Hrest : forall id' p', (id', p') ∈ ps -> is_Some (heap s !! p'))
      by (intros id' p' Hin; apply (Hheap id' p'); right; exact Hin).
    cbn [earliest_loop]. unfold bind at 1. unfold deref at 1. rewrite Hj.
    fold (expectedCompletion j).
    destruct (String.eqb_spec (Status j) "processing") as [Hs | Hs].
    + unfold Time_After.
      destruct (Z.ltb_spec (expectedCompletion j) e) as [Hlt | Hge].
      * destruct (IH (expectedCompletion j) Hrest) as (v & Hv & Hle & Hall & Hex).
        exists v. split; [exact Hv |]. split; [lia |]. split.
        -- intros id' p' j' Hin Hp' Hs'. apply elem_of_cons in Hin.
           destruct Hin as [Heq | Hin]; [| eauto].
           inversion Heq; subst. assert (j' = j) by congruence. subst. exact Hle.
        -- right. destruct Hex as [-> | (id' & p' & j' & Hin & Hp' & Hs' & ->)].
           ++ exists id, p, j. split; [left | auto].
           ++ exists id', p', j'. split; [right; exact Hin | auto].
      * destruct (IH e Hrest) as (v & Hv & Hle & Hall & Hex).
        exists v. split; [exact Hv |]. split; [lia |]. split.
        -- intros id' p' j' Hin Hp' Hs'. apply elem_of_cons in Hin.
           destruct Hin as [Heq | Hin]; [| eauto].
           inversion Heq; subst. assert (j' = j) by congruence. subst. lia.
        -- destruct Hex as [-> | (id' & p' & j' & Hin & Hp' & Hs' & ->)];
             [left; reflexivity | right].
           exists id', p', j'. split; [right; exact Hin | auto].
    + destruct (IH e Hrest) as (v & Hv & Hle & Hall & Hex).
      exists v. split; [exact Hv |]. split; [lia |]. split.
      * intros id' p' j' Hin Hp' Hs'. apply elem_of_cons in Hin.
        destruct Hin as [Heq | Hin]; [| eauto].
        inversion Heq; subst. assert (j' = j) by congruence. subst. contradiction.
      * destruct Hex as [-> | (id' & p' & j' & Hin & Hp' & Hs' & ->)];
          [left; reflexivity | right].
        exists id', p', j'. split; [right; exact Hin | auto].
Qed.

(** Every job pointer of the registry points to a job. *)
Definition registry_valid (s : JobScheduler) : Prop :=
  forall id p, jobs s !! id = Some p -> is_Some (heap s !! p).

Lemma calculateEstimatedWaitTime_spec (js : JobScheduler) (now : Z) :
  mu js ≠ WLocked -> registry_valid js ->
  exists v,
    calculateEstimatedWaitTime now js = Ret v js /\
    v <= now + 30 * Second /\
    (forall id p j, jobs js !! id = Some p -> heap js !! p = Some j ->
       Status j = "processing"%string -> v <= expectedCompletion j) /\
    (v = now + 30 * Second \/
     exists id p j, jobs js !! id = Some p /\ heap js !! p = Some j /\
       Status j = "processing"%string /\ v = expectedCompletion j).
Proof.
  intros Hmu Hvalid. destruct (RLock_RUnlock (mu js) Hmu) as (m' & Hl & Hu).
  unfold calculateEstimatedWaitTime.
  unfold bind at 1. unfold mu_RLock. rewrite Hl.
  unfold bind at 1. unfold gets at 1. go_simpl.
  destruct (earliest_loop_spec (set_mu m' js) (map_to_list (jobs js))
              (Time_Add now (30 * Second))) as (v & Hv & Hle & Hall & Hex).
  { intros id p Hin. apply elem_of_map_to_list in Hin. go_simpl. eauto. }
  unfold bind at 1. rewrite Hv.
  exists v. split.
  { go_unfold. go_simpl. rewrite Hu. destruct js; reflexivity. }
  split; [exact Hle |]. split.
  - intros id p j Hid Hp Hs. apply (Hall id p j); auto.
    apply elem_of_map_to_list. exact Hid.
  - destruct Hex as [-> | (id & p & j & Hin & Hp & Hs & ->)]; [left; reflexivity |].
    right. exists id, p, j. apply elem_of_map_to_list in Hin. auto.
Qed.

(** *** Floating-point comparison *)

Lemma SFcompare_antisym (x y : spec_float) :
  SFcompare y x =
  match SFcompare x y with Some c => Some (CompOpp c) | None => None end.
Proof.
  destruct x as [sx | sx | | sx mx ex], y as [sy | sy | | sy my ey]; cbn;
    try destruct sx; try destruct sy; try reflexivity;
    rewrite (Z.compare_antisym ex ey); destruct (ex ?= ey)%Z; cbn;
    try reflexivity;
    rewrite ?Pos.compare_cont_antisym; cbn; reflexivity.
Qed.

(** [y <= x] excludes [x < y]; both are false when either is a NaN. *)
Lemma float_ge_not_lt (x y : spec_float) : SFleb y x = true -> float_lt x y = false.
Proof.
  unfold SFleb, float_lt, SFltb. rewrite (SFcompare_antisym x y).
  destruct (SFcompare x y) as [[| |] |]; cbn; congruence.
Qed.

(** The thresholds are binary64 numbers, 10 * 2^49 * 2^-49 and
    80 * 2^46 * 2^-46, and a usage of 0 is below the first. *)
Example thresholds_are_binary64 :
  float_10 = S754_finite false (10 * 2 ^ 49) (-49) /\
  float_80 = S754_finite false (80 * 2 ^ 46) (-46) /\
  valid_binary 53 1024 float_10 = true /\
  valid_binary 53 1024 float_80 = true /\
  float_lt float_0 float_10 = true /\
  float_lt float_10 float_10 = false /\
  float_lt float_10 float_80 = true.
Proof. vm_compute. repeat split; reflexivity. Qed.

Lemma no_capacity_over_threshold (js : JobScheduler) :
  SFleb (MaxCPU (resources js)) (CPUUsage (resources js)) = true \/
  SFleb (MaxMemory (resources js)) (MemoryUsage (resources js)) = true ->
  checkResourceAvailability js = false.
Proof.
  intros [H | H]; unfold checkResourceAvailability;
    rewrite (float_ge_not_lt _ _ H); [reflexivity | apply andb_false_r].
Qed.

(** *** Schedulers the program can be in *)

(** A new scheduler, the jobs its callers hold, and any run from there. *)
Definition reachable (s : JobScheduler) : Prop :=
  exists (h : gmap loc Job) (workers : Z) (withSeconds : string -> bool)
         (t0 : Z) (es : list Event),
    s = run es (set_heap (fun _ => h) (NewJobScheduler workers withSeconds t0)).

(** Nothing waits, and every cron entry is for a job with a positive time
    frame: what the guard of [AddJob] establishes. *)
Definition admission_sound (s : JobScheduler) : Prop :=
  waitingQueue s = [] /\
  forall i e, entries (Cron s) !! i = Some e ->
    exists j, heap s !! EntryJob e = Some j /\ 0 < TimeFrame j.

Definition stays_sound (s s' : JobScheduler) : Prop :=
  admission_sound s -> admission_sound s'.

Lemma stays_sound_same (s s' : JobScheduler) :
  heap s' = heap s -> entries (Cron s') = entries (Cron s) ->
  waitingQueue s' = waitingQueue s -> stays_sound s s'.
Proof.
  intros Eh Ee Ew [Hw He]. split; [congruence |].
  intros i e Hi. rewrite Ee in Hi. rewrite Eh. apply (He i e Hi).
Qed.

(** [processJob] leaves the cron entries and the waiting queue alone. *)
Definition frame_kept (s s' : JobScheduler) : Prop :=
  entries (Cron s') = entries (Cron s) /\ waitingQueue s' = waitingQueue s.

Lemma frame_kept_processJob (p : loc) (now : Z) (a : Attempt) :
  keeps frame_kept (processJob p now a).
Proof.
  apply keeps_processJob;
    try (intros; split; reflexivity).
  intros s1 s2 s3 [A1 A2] [B1 B2]. split; congruence.
Qed.

Lemma stays_sound_processJob (p : loc) (now : Z) (a : Attempt) :
  keeps stays_sound (processJob p now a).
Proof.
  intros s [Hw He].
  destruct (frame_kept_processJob p now a s) as [Ee Ew].
  pose proof (run_static [EvProcessJob p now a] s) as Hstatic.
  cbn [run fold_left step] in Hstatic.
  split; [congruence |].
  intros i e Hi. rewrite Ee in Hi. destruct (He i e Hi) as (j & Hj & Htf).
  destruct (Hstatic (EntryJob e) j Hj) as (j' & Hj' & _ & _ & Ht & _).
  exists j'. split; [exact Hj' | lia].
Qed.

Lemma stays_sound_AddJob (p : loc) (now : Z) : keeps stays_sound (AddJob p now).
Proof.
  intros s.
  destruct (heap s !! p) as [job |] eqn:Hp.
  2: { apply stays_sound_same; unfold AddJob; go_unfold; rewrite Hp; reflexivity. }
  destruct (Z.leb_spec (TimeFrame job) 0) as [Htf | Htf].
  { rewrite (AddJob_invalid s p now job Hp Htf). apply stays_sound_same; reflexivity. }
  destruct (mu s) eqn:Hmu.
  2,3: apply stays_sound_same; unfold AddJob; go_unfold; rewrite Hp;
       destruct (Z.leb_spec (TimeFrame job) 0); try lia;
       rewrite Hmu; reflexivity.
  destruct (checkResourceAvailability s) eqn:Hcap.
  - rewrite (AddJob_capacity s p now job Hmu Hp Htf Hcap). cbn [after].
    intros [Hw He]. split; [exact Hw |].
    unfold scheduled. go_simpl. intros i e Hi.
    destruct (parser (Cron s) (cronSpec_of job)); [| apply (He i e Hi)].
    apply lookup_app_Some in Hi. destruct Hi as [Hi | [_ Hi]]; [apply (He i e Hi) |].
    apply list_lookup_singleton_Some in Hi. destruct Hi as [_ <-]. go_simpl.
    exists job. split; [exact Hp | exact Htf].
  - rewrite (AddJob_pressure s p now job Hmu Hp Htf Hcap).
    apply stays_sound_same; reflexivity.
Qed.

Lemma stays_sound_tick : keeps stays_sound processWaitingQueue_tick.
Proof.
  intros s Hs. assert (Hw : waitingQueue s = []) by apply Hs. revert Hs.
  apply stays_sound_same;
    unfold processWaitingQueue_tick; go_unfold;
    destruct (checkResourceAvailability s); try reflexivity;
    destruct (waitingQueueMu s); go_simpl; try reflexivity;
    rewrite Hw; go_simpl; rewrite ?Hw; reflexivity.
Qed.

Lemma run_stays_sound (es : list Event) (s : JobScheduler) :
  stays_sound s (run es s).
Proof.
  apply (R_run stays_sound);
    try (intros; apply stays_sound_same; reflexivity).
  - intros s1 s2 s3 H12 H23 H1. auto.
  - apply stays_sound_processJob.
  - apply stays_sound_AddJob.
  - apply stays_sound_tick.
Qed.

Lemma reachable_sound (s : JobScheduler) : reachable s -> admission_sound s.
Proof.
  intros (h & workers & withSeconds & t0 & es & ->).
  apply run_stays_sound. split; [reflexivity |].
  intros i e Hi. cbn in Hi. rewrite lookup_nil in Hi. discriminate.
Qed.

(** * The claims *)

(** ** C8: a non-positive time frame is rejected and changes nothing *)

(** C8.  For every job whose time frame is at most 0, [AddJob] returns
    [ErrInvalidTimeframe] (the scheduler's InvalidScheduleError) and leaves
    the scheduler exactly as it was: the registry and the waiting queue, and
    every other field, are unchanged. *)
Theorem AddJob_rejects_nonpositive_timeframe
        (js : JobScheduler) (p : loc) (now : Z) (job : Job) :
  heap js !! p = Some job -> TimeFrame job <= 0 ->
  AddJob p now js = Ret (Some ErrInvalidTimeframe) js /\
  jobs (after (AddJob p now js)) = jobs js /\
  waitingQueue (after (AddJob p now js)) = waitingQueue js.
Proof.
  intros Hp Htf. rewrite (AddJob_invalid js p now job Hp Htf).
  repeat split; reflexivity.
Qed.

Lemma AddJob_rejects_nonpositive_timeframe_witness :
  (heap (idle_with job_no_frame) !! 1%positive = Some job_no_frame /\
   TimeFrame job_no_frame <= 0) /\
  AddJob 1%positive t1 (idle_with job_no_frame)
  = Ret (Some ErrInvalidTimeframe) (idle_with job_no_frame).
Proof.
  assert (H1 : heap (idle_with job_no_frame) !! 1%positive = Some job_no_frame)
    by (vm_compute; reflexivity).
  assert (H2 : TimeFrame job_no_frame <= 0) by (cbn; lia).
  split; [split; assumption |].
  exact (proj1 (AddJob_rejects_nonpositive_timeframe
                  (idle_with job_no_frame) 1%positive t1 job_no_frame H1 H2)).
Defined.

(** ** C6: no active keeper is a terminal failure *)

(** C6.  When [processJob] runs for a job whose status is neither
    [completed] nor [failed] and the default quorum has no active node, it
    returns with the job's status set to [failed] and its error to "no
    active keepers available"; [CurrentRetries] is unchanged, and every
    later execution of the routine for that job returns at the guard
    without changing anything. *)
Theorem processJob_no_active_keepers
        (js : JobScheduler) (p : loc) (now : Z) (a : Attempt)
        (job : Job) (quorum : Quorum) :
  mu js = Unlocked -> heap js !! p = Some job ->
  Status job ≠ "completed"%string -> Status job ≠ "failed"%string ->
  quorums js !! "default"%string = Some quorum -> ActiveNodes quorum = [] ->
  exists job' js',
    processJob p now a js = Ret tt js' /\
    js' = set_heap <[p := job']> js /\
    Status job' = "failed"%string /\
    Error job' = "no active keepers available"%string /\
    CurrentRetries job' = CurrentRetries job /\
    (forall now' a', processJob p now' a' js' = Ret tt js').
Proof.
  intros Hmu Hp Hc Hf Hq Hn.
  exists (no_keepers (begun now job)), (set_heap <[p := no_keepers (begun now job)]> js).
  split.
  { apply (processJob_no_keepers js p now a job quorum); auto.
    apply terminal_false; assumption. }
  split; [reflexivity |]. split; [reflexivity |]. split; [reflexivity |].
  split; [reflexivity |].
  intros now' a'.
  apply (processJob_terminal _ p now' a' (no_keepers (begun now job))).
  - exact Hmu.
  - go_simpl. apply lookup_insert_eq.
  - reflexivity.
Qed.

Lemma processJob_no_active_keepers_witness :
  (mu no_nodes = Unlocked /\ heap no_nodes !! 1%positive = Some job_1 /\
   Status job_1 ≠ "completed"%string /\ Status job_1 ≠ "failed"%string /\
   quorums no_nodes !! "default"%string
   = Some (mkQuorum "default" 3 [] "active" "chain_1" 0 0)) /\
  exists job' js',
    processJob 1%positive t1 failing no_nodes = Ret tt js' /\
    js' = set_heap <[1%positive := job']> no_nodes /\
    Status job' = "failed"%string /\
    Error job' = "no active keepers available"%string /\
    CurrentRetries job' = CurrentRetries job_1 /\
    (forall now' a', processJob 1%positive now' a' js' = Ret tt js').
Proof.
  assert (H1 : mu no_nodes = Unlocked) by (vm_compute; reflexivity).
  assert (H2 : heap no_nodes !! 1%positive = Some job_1) by (vm_compute; reflexivity).
  assert (H3 : Status job_1 ≠ "completed"%string) by discriminate.
  assert (H4 : Status job_1 ≠ "failed"%string) by discriminate.
  assert (H5 : quorums no_nodes !! "default"%string
               = Some (mkQuorum "default" 3 [] "active" "chain_1" 0 0))
    by (vm_compute; reflexivity).
  split; [auto |].
  exact (processJob_no_active_keepers no_nodes 1%positive t1 failing job_1
           (mkQuorum "default" 3 [] "active" "chain_1" 0 0)
           H1 H2 H3 H4 H5 eq_refl).
Defined.

(** ** C7: the promoter pops the head, once per tick *)

(** C7.  On a tick of the promoter with capacity and a non-empty waiting
    queue, the head of the queue, and only the head, is removed, and
    [scheduleJob] is run on it: the tick leaves what [scheduleJob] leaves
    when started on the scheduler without that head.  The queue is then
    the former tail whether [scheduleJob] returned an error or not: a job
    whose registration failed is not put back. *)
Theorem promoter_pops_the_head
        (js : JobScheduler) (w : WaitingJob) (rest : list WaitingJob) (job : Job) :
  mu js = Unlocked -> waitingQueueMu js = Unlocked ->
  checkResourceAvailability js = true ->
  waitingQueue js = w :: rest -> heap js !! JobPtr w = Some job ->
  exists err js',
    scheduleJob (JobPtr w) (set_waitingQueue (fun _ => rest) js) = Ret err js' /\
    processWaitingQueue_tick js = Ret tt js' /\
    waitingQueue js' = rest /\
    jobs js' !! JobID job = Some (JobPtr w).
Proof.
  intros Hmu Hwmu Hcap Hq Hp.
  eexists _, _. split.
  { apply (scheduleJob_spec _ (JobPtr w) job). go_simpl. exact Hp. }
  split.
  { apply processWaitingQueue_tick_pops; assumption. }
  unfold scheduled. go_simpl.
  split; [reflexivity | apply lookup_insert_eq].
Qed.

Lemma promoter_pops_the_head_witness :
  (mu queued = Unlocked /\ waitingQueueMu queued = Unlocked /\
   checkResourceAvailability queued = true /\
   waitingQueue queued
   = mkWaitingJob 1%positive (31 * Second) :: [mkWaitingJob 2%positive (32 * Second)] /\
   heap queued !! 1%positive = Some job_1) /\
  exists err js',
    scheduleJob 1%positive
      (set_waitingQueue (fun _ => [mkWaitingJob 2%positive (32 * Second)]) queued)
    = Ret err js' /\
    processWaitingQueue_tick queued = Ret tt js' /\
    waitingQueue js' = [mkWaitingJob 2%positive (32 * Second)] /\
    jobs js' !! "job_1"%string = Some 1%positive.
Proof.
  assert (H1 : mu queued = Unlocked) by (vm_compute; reflexivity).
  assert (H2 : waitingQueueMu queued = Unlocked) by (vm_compute; reflexivity).
  assert (H3 : checkResourceAvailability queued = true) by (vm_compute; reflexivity).
  assert (H4 : waitingQueue queued
               = mkWaitingJob 1%positive (31 * Second)
                   :: [mkWaitingJob 2%positive (32 * Second)]) by (vm_compute; reflexivity).
  assert (H5 : heap queued !! 1%positive = Some job_1) by (vm_compute; reflexivity).
  split; [auto |].
  exact (promoter_pops_the_head queued (mkWaitingJob 1%positive (31 * Second))
           [mkWaitingJob 2%positive (32 * Second)] job_1 H1 H2 H3 H4 H5).
Defined.

(** ** C5: an aged-out job is never enqueued again *)

(** C5.  Take a scheduler the program can be in, one of its cron entries,
    the job of that entry, with time frame [T] seconds, and a time [now] at
    which the job's age [now - CreatedAt] exceeds [T] seconds.  Then, after
    any further events, a firing of that entry at any time from [now] on
    returns at once and leaves the scheduler as it found it; in particular
    it does not push the job onto the ready queue, whatever the job's
    status is. *)
Theorem aged_out_job_is_never_enqueued
        (js : JobScheduler) (i : nat) (e : cron_Entry) (job : Job) (now : Z) :
  reachable js ->
  entries (Cron js) !! i = Some e ->
  heap js !! EntryJob e = Some job ->
  TimeFrame job * Second < now - CreatedAt job ->
  forall (es : list Event) (now' : Z), now <= now' ->
    cron_tick i now' (run es js) = Ret tt (run es js) /\
    jobQueue (after (cron_tick i now' (run es js))) = jobQueue (run es js).
Proof.
  intros Hreach He Hp Hage es now' Hlater.
  assert (HT : 0 < TimeFrame job).
  { destruct (reachable_sound js Hreach) as [_ Hentries].
    destruct (Hentries i e He) as (j & Hj & Hpos). congruence. }
  assert (Hfire : cron_tick i now' (run es js) = Ret tt (run es js)).
  { pose proof (run_entries es js i e He) as He'.
    destruct (run_static es js (EntryJob e) job Hp)
      as (job' & Hp' & _ & Hc & Ht & _).
    unfold cron_tick. unfold bind at 1. unfold gets at 1. rewrite He'.
    apply (cronFire_aged_out _ _ _ job'); [exact Hp' | lia |].
    rewrite Ht, Hc. lia. }
  split; [exact Hfire | rewrite Hfire; reflexivity].
Qed.

Lemma admitted_reachable : reachable admitted.
Proof.
  exists {[ 1%positive := job_1 ]}, 5, every_parser, 0, [EvAddJob 1%positive t1].
  reflexivity.
Defined.

(** [job_1], admitted at 1 s with a time frame of 120 s, has aged out at
    122 s. *)
Lemma aged_out_job_is_never_enqueued_witness :
  (reachable admitted /\
   entries (Cron admitted) !! 0%nat = Some (mkEntry "@every 15s" 1%positive) /\
   heap admitted !! 1%positive = Some job_1 /\
   TimeFrame job_1 * Second < 122 * Second - CreatedAt job_1) /\
  forall (es : list Event) (now' : Z), 122 * Second <= now' ->
    cron_tick 0 now' (run es admitted) = Ret tt (run es admitted) /\
    jobQueue (after (cron_tick 0 now' (run es admitted))) = jobQueue (run es admitted).
Proof.
  assert (H1 : entries (Cron admitted) !! 0%nat
               = Some (mkEntry "@every 15s" 1%positive))
    by (vm_compute; reflexivity).
  assert (H2 : heap admitted !! 1%positive = Some job_1)
    by (vm_compute; reflexivity).
  assert (H4 : TimeFrame job_1 * Second < 122 * Second - CreatedAt job_1)
    by (vm_compute; reflexivity).
  split; [auto using admitted_reachable |].
  exact (aged_out_job_is_never_enqueued admitted 0
           (mkEntry "@every 15s" 1%positive) job_1 (122 * Second)
           admitted_reachable H1 H2 H4).
Defined.

(** Before it ages out, the same entry does enqueue the pending job. *)
Example pending_job_is_enqueued_in_time :
  jobQueue (after (cron_tick 0 (16 * Second) admitted)) = [1%positive].
Proof. vm_compute. reflexivity. Qed.

(** ** C2: the retry budget *)

(** C2, as the code has it.  Take a job whose counters are in range and
    whose retry count is within its budget, and below it unless the job
    has already failed (any new job with [MaxRetries >= 1]).  Along every
    run, at any two successive points: [CurrentRetries] does not decrease
    and never exceeds [MaxRetries]; and once it equals [MaxRetries] the
    status is [failed] and the job record never changes again. *)
Theorem retries_within_budget
        (js : JobScheduler) (p : loc) (j : Job) (es1 es2 : list Event) :
  heap js !! p = Some j -> Job_ints j -> budget_ok j ->
  exists j1 j2,
    heap (run es1 js) !! p = Some j1 /\
    heap (run es2 (run es1 js)) !! p = Some j2 /\
    CurrentRetries j <= CurrentRetries j1 /\
    CurrentRetries j1 <= CurrentRetries j2 /\
    CurrentRetries j2 <= MaxRetries j /\
    MaxRetries j2 = MaxRetries j /\
    (CurrentRetries j1 = MaxRetries j -> Status j1 = "failed"%string /\ j2 = j1).
Proof.
  intros Hp Hi Hb.
  destruct (run_retry es1 js p j Hp) as (j1 & Hp1 & Hm1 & Hf1 & Hr1).
  destruct (Hr1 Hi Hb) as (Hi1 & Hle1 & Hb1).
  destruct (run_retry es2 (run es1 js) p j1 Hp1) as (j2 & Hp2 & Hm2 & Hf2 & Hr2).
  destruct (Hr2 Hi1 Hb1) as (Hi2 & Hle2 & Hb2).
  exists j1, j2. repeat split; try assumption; try congruence.
  - destruct Hb2 as [Hle _]. lia.
  - destruct (decide (Status j1 = "failed"%string)) as [Hs | Hs]; [exact Hs |].
    destruct Hb1 as [_ Hlt]. specialize (Hlt Hs). lia.
  - apply Hf2.
    destruct (decide (Status j1 = "failed"%string)) as [Hs | Hs]; [exact Hs |].
    destruct Hb1 as [_ Hlt]. specialize (Hlt Hs). lia.
Qed.

Lemma retries_within_budget_witness :
  (heap idle !! 1%positive = Some job_1 /\ Job_ints job_1 /\ budget_ok job_1) /\
  exists j1 j2,
    heap (run [EvProcessJob 1%positive t1 failing] idle) !! 1%positive = Some j1 /\
    heap (run [EvProcessJob 1%positive (2 * Second) failing;
               EvProcessJob 1%positive (3 * Second) succeeding]
            (run [EvProcessJob 1%positive t1 failing] idle)) !! 1%positive = Some j2 /\
    CurrentRetries job_1 <= CurrentRetries j1 /\
    CurrentRetries j1 <= CurrentRetries j2 /\
    CurrentRetries j2 <= MaxRetries job_1 /\
    MaxRetries j2 = MaxRetries job_1 /\
    (CurrentRetries j1 = MaxRetries job_1 -> Status j1 = "failed"%string /\ j2 = j1).
Proof.
  assert (H1 : heap idle !! 1%positive = Some job_1) by (vm_compute; reflexivity).
  assert (H2 : Job_ints job_1).
  { unfold Job_ints, int64, MinInt64, MaxInt64. cbn. lia. }
  assert (H3 : budget_ok job_1).
  { unfold budget_ok. cbn. split; [lia | intros _; lia]. }
  split; [auto |].
  exact (retries_within_budget idle 1%positive job_1
           [EvProcessJob 1%positive t1 failing]
           [EvProcessJob 1%positive (2 * Second) failing;
            EvProcessJob 1%positive (3 * Second) succeeding] H1 H2 H3).
Defined.

(** The scenario of the design document: with two retries allowed and
    every attempt failing, the second failure is final, and a later
    attempt that would succeed changes nothing. *)
Example two_failures_exhaust_the_budget :
  heap (run [EvProcessJob 1%positive t1 failing] idle) !! 1%positive
  = Some (mkJob "job_1" "pending" 0 120 15 2 1 t1 "") /\
  heap (run [EvProcessJob 1%positive t1 failing;
             EvProcessJob 1%positive (2 * Second) failing] idle) !! 1%positive
  = Some (mkJob "job_1" "failed" 0 120 15 2 2 (2 * Second) "maximum retries exceeded") /\
  heap (run [EvProcessJob 1%positive t1 failing;
             EvProcessJob 1%positive (2 * Second) failing;
             EvProcessJob 1%positive (3 * Second) succeeding] idle) !! 1%positive
  = Some (mkJob "job_1" "failed" 0 120 15 2 2 (2 * Second) "maximum retries exceeded").
Proof. vm_compute. repeat split; reflexivity. Qed.

(** The executions above follow one another.  The routine gives up
    [js.mu] between its two critical sections and does not test the guard
    again, so two executions of one job that overlap are another matter:
    with one retry allowed, both pass the guard, the first to finish fails
    the job, and the second takes [CurrentRetries] to 2. *)
Example overlapping_executions_overrun_the_budget :
  let job := mkJob "job_1" "pending" 0 120 15 1 0 0 "" in
  let s1 := after (processJob_begin 1%positive t1 failing (idle_with job)) in
  let s2 := after (processJob_begin 1%positive (2 * Second) failing s1) in
  let s3 := after (processJob_finish 1%positive "node1" failing s2) in
  let s4 := after (processJob_finish 1%positive "node1" failing s3) in
  heap s3 !! 1%positive
  = Some (mkJob "job_1" "failed" 0 120 15 1 1 (2 * Second) "maximum retries exceeded") /\
  heap s4 !! 1%positive
  = Some (mkJob "job_1" "failed" 0 120 15 1 2 (2 * Second) "maximum retries exceeded").
Proof. vm_compute. split; reflexivity. Qed.

(** C2 as stated fails for a job that allows no retry: its first failed
    attempt takes [CurrentRetries] to 1, above [MaxRetries = 0]. *)
Lemma retries_exceed_a_zero_budget :
  heap (idle_with job_no_retry) !! 1%positive = Some job_no_retry /\
  MaxRetries job_no_retry = 0 /\
  processJob 1%positive t1 failing (idle_with job_no_retry)
  = Ret tt (set_heap
              <[1%positive :=
                  mkJob "job_1" "failed" 0 120 15 0 1 t1 "maximum retries exceeded"]>
              (idle_with job_no_retry)) /\
  MaxRetries (mkJob "job_1" "failed" 0 120 15 0 1 t1 "maximum retries exceeded")
  < CurrentRetries (mkJob "job_1" "failed" 0 120 15 0 1 t1 "maximum retries exceeded").
Proof. vm_compute. repeat split; reflexivity. Qed.

(** ** C3: the interval is not validated *)

(** C3, as the code has it.  [AddJob] validates the time frame only.  With
    capacity and no lock held, for a job whose interval is 0 or negative:
    when its time frame is at most 0 the call returns
    [ErrInvalidTimeframe] and changes nothing; when its time frame is
    positive the interval is not looked at: the call returns, not with
    [ErrInvalidTimeframe], and the job is in the registry. *)
Theorem AddJob_validates_the_time_frame_only
        (js : JobScheduler) (p : loc) (now : Z) (job : Job) :
  heap js !! p = Some job -> TimeInterval job <= 0 ->
  mu js = Unlocked -> checkResourceAvailability js = true ->
  if TimeFrame job <=? 0
  then AddJob p now js = Ret (Some ErrInvalidTimeframe) js
  else exists err js',
         AddJob p now js = Ret err js' /\
         err ≠ Some ErrInvalidTimeframe /\
         jobs js' !! JobID job = Some p.
Proof.
  intros Hp _ Hmu Hcap.
  destruct (Z.leb_spec (TimeFrame job) 0) as [Htf | Htf].
  - apply (AddJob_invalid js p now job Hp Htf).
  - exists (scheduleJob_result job js), (scheduled p job js).
    split; [apply AddJob_capacity; assumption |]. split.
    + unfold scheduleJob_result. destruct (parser _ _); discriminate.
    + unfold scheduled. go_simpl. apply lookup_insert_eq.
Qed.

Lemma AddJob_validates_the_time_frame_only_witness :
  (heap (idle_with job_no_interval) !! 1%positive = Some job_no_interval /\
   TimeInterval job_no_interval <= 0 /\
   mu (idle_with job_no_interval) = Unlocked /\
   checkResourceAvailability (idle_with job_no_interval) = true) /\
  exists err js',
    AddJob 1%positive t1 (idle_with job_no_interval) = Ret err js' /\
    err ≠ Some ErrInvalidTimeframe /\
    jobs js' !! "job_1"%string = Some 1%positive.
Proof.
  assert (H1 : heap (idle_with job_no_interval) !! 1%positive = Some job_no_interval)
    by (vm_compute; reflexivity).
  assert (H2 : TimeInterval job_no_interval <= 0) by (vm_compute; discriminate).
  assert (H3 : mu (idle_with job_no_interval) = Unlocked)
    by (vm_compute; reflexivity).
  assert (H4 : checkResourceAvailability (idle_with job_no_interval) = true)
    by (vm_compute; reflexivity).
  split; [auto |].
  exact (AddJob_validates_the_time_frame_only
           (idle_with job_no_interval) 1%positive t1 job_no_interval H1 H2 H3 H4).
Defined.

(** C3 as stated fails: a job with interval 0 and a positive time frame is
    accepted ([AddJob] returns [nil]) and is in the registry afterwards. *)
Lemma zero_interval_is_admitted :
  TimeInterval job_no_interval = 0 /\
  (exists js',
     AddJob 1%positive t1 (idle_with job_no_interval) = Ret None js' /\
     jobs js' !! "job_1"%string = Some 1%positive /\
     entries (Cron js') = [mkEntry "@every 0s" 1%positive]).
Proof.
  split; [reflexivity |].
  eexists. split; [vm_compute; reflexivity |].
  split; vm_compute; reflexivity.
Qed.

(** ** C4: the estimate *)

(** C4, as the code has it.  With the read lock available and a registry
    whose pointers are valid, [calculateEstimatedWaitTime] returns the
    earlier of [now] plus 30 seconds and the earliest expected completion
    among the registry jobs in [processing], where a job's expected
    completion is its creation time plus its time frame in seconds (as an
    [int64] number of nanoseconds): the value is below all of these and is
    one of them.  It is [now] plus 30 seconds when no registry job is
    processing.  The scheduler is left unchanged. *)
Theorem estimate_is_the_earliest_expected_completion
        (js : JobScheduler) (now : Z) :
  mu js ≠ WLocked -> registry_valid js ->
  exists v,
    calculateEstimatedWaitTime now js = Ret v js /\
    v <= now + 30 * Second /\
    (forall id p j, jobs js !! id = Some p -> heap js !! p = Some j ->
       Status j = "processing"%string ->
       v <= CreatedAt j + seconds (TimeFrame j)) /\
    (v = now + 30 * Second \/
     exists id p j, jobs js !! id = Some p /\ heap js !! p = Some j /\
       Status j = "processing"%string /\
       v = CreatedAt j + seconds (TimeFrame j)) /\
    ((forall id p j, jobs js !! id = Some p -> heap js !! p = Some j ->
        Status j ≠ "processing"%string) ->
     v = now + 30 * Second).
Proof.
  intros Hmu Hvalid.
  destruct (calculateEstimatedWaitTime_spec js now Hmu Hvalid)
    as (v & Hv & Hle & Hall & Hex).
  exists v. split; [exact Hv |]. split; [exact Hle |].
  split; [exact Hall |]. split; [exact Hex |].
  intros Hnone. destruct Hex as [-> | (id & p & j & Hid & Hp & Hs & _)]; [reflexivity |].
  exfalso. exact (Hnone id p j Hid Hp Hs).
Qed.

Lemma running_registry_valid : registry_valid running.
Proof.
  intros id p H. unfold running in H. go_simpl.
  destruct (decide (id = "job_1"%string)) as [-> | Hne].
  - rewrite lookup_insert_eq in H. inversion H; subst.
    exists job_running. vm_compute. reflexivity.
  - rewrite lookup_insert_ne in H by congruence.
    vm_compute in H. discriminate.
Defined.

Lemma estimate_is_the_earliest_expected_completion_witness :
  (mu running ≠ WLocked /\ registry_valid running) /\
  exists v,
    calculateEstimatedWaitTime (60 * Second) running = Ret v running /\
    v <= 60 * Second + 30 * Second /\
    (forall id p j, jobs running !! id = Some p -> heap running !! p = Some j ->
       Status j = "processing"%string ->
       v <= CreatedAt j + seconds (TimeFrame j)) /\
    (v = 60 * Second + 30 * Second \/
     exists id p j, jobs running !! id = Some p /\ heap running !! p = Some j /\
       Status j = "processing"%string /\
       v = CreatedAt j + seconds (TimeFrame j)) /\
    ((forall id p j, jobs running !! id = Some p -> heap running !! p = Some j ->
        Status j ≠ "processing"%string) ->
     v = 60 * Second + 30 * Second).
Proof.
  assert (H1 : mu running ≠ WLocked) by (vm_compute; discriminate).
  split; [split; [exact H1 | exact running_registry_valid] |].
  exact (estimate_is_the_earliest_expected_completion running (60 * Second)
           H1 running_registry_valid).
Defined.

(** With no job in [processing] the estimate is the default horizon. *)
Example estimate_defaults_to_thirty_seconds :
  calculateEstimatedWaitTime t1 admitted = Ret (t1 + 30 * Second) admitted.
Proof. vm_compute. reflexivity. Qed.

(** C4 as stated fails.  At 60 s, with one job in [processing] that was
    created at 0, last executed at 50 s and has a time frame of 100 s, the
    code's estimate is 90 s (the default horizon, earlier than creation
    plus time frame, 100 s); last-executed plus time frame is 150 s. *)
Lemma estimate_is_not_last_executed_plus_time_frame :
  calculateEstimatedWaitTime (60 * Second) running = Ret (90 * Second) running /\
  documented_estimate (60 * Second) running = 150 * Second /\
  expectedCompletion job_running = 100 * Second.
Proof. vm_compute. repeat split; reflexivity. Qed.

(** ** C1, C9, C10: admission under resource pressure

    The three claims describe what [AddJob] does with a valid job when the
    capacity check fails: the job goes to the waiting queue.  The code
    reaches for that, but [AddJob] calls [calculateEstimatedWaitTime]
    while it holds [js.mu] for writing, and that function starts with
    [js.mu.RLock()]: the call waits for a lock its own goroutine holds. *)

(** The waiting queue is only ever shortened. *)
Definition queue_shrinks (s s' : JobScheduler) : Prop :=
  exists k, waitingQueue s' = drop k (waitingQueue s).

Lemma queue_shrinks_same (s s' : JobScheduler) :
  waitingQueue s' = waitingQueue s -> queue_shrinks s s'.
Proof. intros E. exists 0%nat. rewrite E. reflexivity. Qed.

Lemma queue_shrinks_trans (s1 s2 s3 : JobScheduler) :
  queue_shrinks s1 s2 -> queue_shrinks s2 s3 -> queue_shrinks s1 s3.
Proof.
  intros [k1 E1] [k2 E2]. exists (k1 + k2)%nat.
  rewrite E2, E1. apply drop_drop.
Qed.

Lemma queue_shrinks_AddJob (p : loc) (now : Z) : keeps queue_shrinks (AddJob p now).
Proof.
  intros s. apply queue_shrinks_same.
  destruct (heap s !! p) as [job |] eqn:Hp.
  2: { unfold AddJob. go_unfold. rewrite Hp. reflexivity. }
  destruct (Z.leb_spec (TimeFrame job) 0) as [Htf | Htf].
  { rewrite (AddJob_invalid s p now job Hp Htf). reflexivity. }
  destruct (mu s) eqn:Hmu.
  2,3: unfold AddJob; go_unfold; rewrite Hp;
       destruct (Z.leb_spec (TimeFrame job) 0); [lia |];
       rewrite Hmu; reflexivity.
  destruct (checkResourceAvailability s) eqn:Hcap.
  - rewrite (AddJob_capacity s p now job Hmu Hp Htf Hcap). reflexivity.
  - rewrite (AddJob_pressure s p now job Hmu Hp Htf Hcap). reflexivity.
Qed.

Lemma run_queue_shrinks (es : list Event) (s : JobScheduler) :
  queue_shrinks s (run es s).
Proof.
  assert (Hrefl : forall s, queue_shrinks s s)
    by (intros; apply queue_shrinks_same; reflexivity).
  apply (R_run_of_steps queue_shrinks); try assumption;
    try (intros; apply queue_shrinks_same; reflexivity).
  - apply queue_shrinks_trans.
  - intros s0 w rest Hq. exists 1%nat. go_simpl. rewrite Hq. reflexivity.
  - intros p now a. apply keeps_processJob; try assumption;
      try apply queue_shrinks_trans;
      intros; apply queue_shrinks_same; reflexivity.
  - apply queue_shrinks_AddJob.
Qed.

(** C1, at a failing input.  [job_1] has a positive interval and a
    positive time frame; the scheduler has sampled 40 % CPU, above the
    threshold.  [AddJob] does not return: it is left waiting for the read
    lock with the write lock held, and the job is neither in the registry
    nor in the waiting queue, and has no trigger. *)
Theorem AddJob_under_pressure_admits_nowhere :
  0 < TimeInterval job_1 /\ 0 < TimeFrame job_1 /\
  checkResourceAvailability busy = false /\
  AddJob 1%positive t1 busy = Blocked (set_mu WLocked busy) /\
  jobs (set_mu WLocked busy) !! "job_1"%string = None /\
  waitingQueue (set_mu WLocked busy) = [] /\
  entries (Cron (set_mu WLocked busy)) = [].
Proof. vm_compute. repeat split; reflexivity. Qed.

(** C9, at a failing input.  After the same [AddJob], which the claim
    takes to have put the job in the waiting queue, [GetJobDetails] for
    that job does not return [ErrJobNotFound]: it waits for the read lock
    that [AddJob] still holds for writing. *)
Theorem GetJobDetails_after_pressure_blocks :
  run [EvAddJob 1%positive t1] busy = set_mu WLocked busy /\
  waitingQueue (set_mu WLocked busy) = [] /\
  GetJobDetails "job_1" (set_mu WLocked busy) = Blocked (set_mu WLocked busy).
Proof. vm_compute. repeat split; reflexivity. Qed.

(** C10, at a failing input.  A new scheduler has the thresholds 10.0 and
    80.0, and with a CPU sample of exactly 10.0 the capacity check fails
    (the comparison is strict); but the valid job submitted then is not
    diverted to the waiting queue: [AddJob] is left waiting, and the queue
    is empty. *)
Theorem thresholds_and_admission_at_the_threshold :
  MaxCPU (resources (NewJobScheduler 5 every_parser 0)) = float_10 /\
  MaxMemory (resources (NewJobScheduler 5 every_parser 0)) = float_80 /\
  CPUUsage (resources at_threshold) = float_10 /\
  checkResourceAvailability at_threshold = false /\
  AddJob 1%positive t1 at_threshold = Blocked (set_mu WLocked at_threshold) /\
  waitingQueue (after (AddJob 1%positive t1 at_threshold)) = [] /\
  jobs (after (AddJob 1%positive t1 at_threshold)) = ∅.
Proof. vm_compute. repeat split; reflexivity. Qed.

(** ** Further properties *)

(** What [AddJob] can do when the capacity check fails, from any state. *)
Lemma AddJob_pressure_cases (s : JobScheduler) (p : loc) (now : Z) :
  checkResourceAvailability s = false ->
  AddJob p now s = Panic s \/
  AddJob p now s = Ret (Some ErrInvalidTimeframe) s \/
  AddJob p now s = Blocked s \/
  AddJob p now s = Blocked (set_mu WLocked s).
Proof.
  intros Hcap.
  destruct (heap s !! p) as [job |] eqn:Hp.
  2: { left. unfold AddJob. go_unfold. rewrite Hp. reflexivity. }
  destruct (Z.leb_spec (TimeFrame job) 0) as [Htf | Htf].
  { right. left. apply (AddJob_invalid s p now job Hp Htf). }
  destruct (mu s) eqn:Hmu.
  2,3: right; right; left; unfold AddJob; go_unfold; rewrite Hp;
       destruct (Z.leb_spec (TimeFrame job) 0); [lia |];
       rewrite Hmu; reflexivity.
  right. right. right. apply (AddJob_pressure s p now job Hmu Hp Htf Hcap).
Qed.

(** X1.  Under resource pressure a valid job makes [AddJob] wait for
    ever.  From a scheduler on which no lock is held, [AddJob] for a job with a
    positive time frame, when the capacity check fails, does not return:
    it is blocked with [js.mu] write-locked and nothing else changed. *)
Theorem AddJob_blocks_under_pressure
        (js : JobScheduler) (p : loc) (now : Z) (job : Job) :
  mu js = Unlocked -> heap js !! p = Some job -> 0 < TimeFrame job ->
  checkResourceAvailability js = false ->
  AddJob p now js = Blocked (set_mu WLocked js).
Proof. apply AddJob_pressure. Qed.

Lemma AddJob_blocks_under_pressure_witness :
  (mu busy = Unlocked /\ heap busy !! 1%positive = Some job_1 /\
   0 < TimeFrame job_1 /\ checkResourceAvailability busy = false) /\
  AddJob 1%positive t1 busy = Blocked (set_mu WLocked busy).
Proof.
  assert (H1 : mu busy = Unlocked) by (vm_compute; reflexivity).
  assert (H2 : heap busy !! 1%positive = Some job_1) by (vm_compute; reflexivity).
  assert (H3 : 0 < TimeFrame job_1) by (vm_compute; reflexivity).
  assert (H4 : checkResourceAvailability busy = false) by (vm_compute; reflexivity).
  split; [auto |].
  exact (AddJob_blocks_under_pressure busy 1%positive t1 job_1 H1 H2 H3 H4).
Defined.

(** X2.  The waiting queue never grows: along every run it is a suffix of what
    it was, and from a new scheduler, whatever jobs the callers hold, it
    is empty for ever. *)
Theorem waiting_queue_never_grows (es : list Event) (js : JobScheduler) :
  (exists k, waitingQueue (run es js) = drop k (waitingQueue js)) /\
  (forall (h : gmap loc Job) (workers : Z) (withSeconds : string -> bool) (now : Z),
     waitingQueue
       (run es (set_heap (fun _ => h) (NewJobScheduler workers withSeconds now)))
     = []).
Proof.
  split; [apply run_queue_shrinks |].
  intros h workers withSeconds now.
  destruct (run_queue_shrinks es
              (set_heap (fun _ => h) (NewJobScheduler workers withSeconds now)))
    as [k E].
  rewrite E. cbn. apply drop_nil.
Qed.

(** X3.  [GetJobDetails] reads the registry.  When [js.mu] is not held for
    writing and the registry's pointers are valid, the call returns
    [ErrJobNotFound] exactly when the identifier has no registry entry, and
    otherwise the map built from the job the entry points to. *)
Theorem GetJobDetails_reads_the_registry (js : JobScheduler) (jobID : string) :
  mu js ≠ WLocked -> registry_valid js ->
  (GetJobDetails jobID js = Ret (inr (ErrJobNotFound jobID)) js <->
   jobs js !! jobID = None) /\
  (forall p job, jobs js !! jobID = Some p -> heap js !! p = Some job ->
     GetJobDetails jobID js = Ret (inl (details_of job)) js /\
     details_of job !! "status"%string = Some (VString (Status job)) /\
     details_of job !! "created_at"%string = Some (VTime (CreatedAt job)) /\
     details_of job !! "last_executed"%string = Some (VTime (LastExecuted job)) /\
     details_of job !! "current_retries"%string = Some (VInt (CurrentRetries job)) /\
     details_of job !! "time_frame"%string = Some (VInt (TimeFrame job)) /\
     details_of job !! "time_interval"%string = Some (VInt (TimeInterval job)) /\
     details_of job !! "error"%string = Some (VString (Error job))).
Proof.
  intros Hmu Hvalid. split.
  - split.
    + intros Hret. destruct (jobs js !! jobID) as [p |] eqn:Hid; [| reflexivity].
      destruct (Hvalid jobID p Hid) as [job Hp].
      rewrite (GetJobDetails_present js jobID p job Hmu Hid Hp) in Hret.
      discriminate.
    + apply GetJobDetails_absent. exact Hmu.
  - intros p job Hid Hp.
    split; [apply (GetJobDetails_present js jobID p job); assumption |].
    unfold details_of. repeat split; vm_compute; reflexivity.
Qed.

Lemma GetJobDetails_reads_the_registry_witness :
  (mu running ≠ WLocked /\ registry_valid running) /\
  GetJobDetails "job_1" running = Ret (inl (details_of job_running)) running /\
  GetJobDetails "job_2" running = Ret (inr (ErrJobNotFound "job_2")) running.
Proof.
  assert (H1 : mu running ≠ WLocked) by (vm_compute; discriminate).
  pose proof (GetJobDetails_reads_the_registry running "job_1" H1
                running_registry_valid) as [_ Hpresent].
  pose proof (GetJobDetails_reads_the_registry running "job_2" H1
                running_registry_valid) as [[_ Habsent] _].
  split; [split; [exact H1 | exact running_registry_valid] |].
  split.
  - apply (Hpresent 1%positive job_running); vm_compute; reflexivity.
  - apply Habsent. vm_compute. reflexivity.
Defined.

(** X4.  The capacity check is the strict conjunction of the two
    comparisons,
    so a CPU sample at or above [MaxCPU], or a memory sample at or above
    [MaxMemory], fails it; and a call of [AddJob] then never schedules:
    the registry, the timers and the cron entries are as they were. *)
Theorem no_admission_over_the_thresholds (js : JobScheduler) :
  (checkResourceAvailability js = true <->
   SFltb (CPUUsage (resources js)) (MaxCPU (resources js)) = true /\
   SFltb (MemoryUsage (resources js)) (MaxMemory (resources js)) = true) /\
  (SFleb (MaxCPU (resources js)) (CPUUsage (resources js)) = true \/
   SFleb (MaxMemory (resources js)) (MemoryUsage (resources js)) = true ->
   checkResourceAvailability js = false /\
   forall p now,
     jobs (after (AddJob p now js)) = jobs js /\
     timers (after (AddJob p now js)) = timers js /\
     entries (Cron (after (AddJob p now js))) = entries (Cron js)).
Proof.
  split.
  - unfold checkResourceAvailability, float_lt. apply andb_true_iff.
  - intros Hover. pose proof (no_capacity_over_threshold js Hover) as Hcap.
    split; [exact Hcap |]. intros p now.
    destruct (AddJob_pressure_cases js p now Hcap) as [E | [E | [E | E]]];
      rewrite E; repeat split; reflexivity.
Qed.

(** * More of the two files *)

(** ** The recurring trigger *)

(** The test of the timer closure on the status it reads. *)
Definition shouldQueue (status : string) : bool :=
  negb (String.eqb status "processing") &&
  negb (String.eqb status "completed") &&
  negb (String.eqb status "failed").

Lemma cronFire_in_time (js : JobScheduler) (p q : loc) (now : Z) (job cur : Job) :
  mu js ≠ WLocked -> heap js !! p = Some job ->
  Since now (CreatedAt job) <= seconds (TimeFrame job) ->
  jobs js !! JobID job = Some q -> heap js !! q = Some cur ->
  cronFire p now js =
    if shouldQueue (Status cur)
    then if (length (jobQueue js) <? jobQueue_cap)%nat
         then Ret tt (set_jobQueue (fun l => l ++ [p]) js)
         else Blocked js
    else Ret tt js.
Proof.
  intros Hmu Hp Hage Hid Hq.
  destruct (RLock_RUnlock (mu js) Hmu) as (m' & Hl & Hu).
  assert (Hguard : (seconds (TimeFrame job) <? Since now (CreatedAt job)) = false)
    by (apply Z.ltb_ge; exact Hage).
  unfold cronFire, shouldQueue. go_unfold.
  go_with ltac:(first [rewrite Hp | rewrite Hguard | rewrite Hl | rewrite Hid
                      | rewrite Hq | rewrite Hu]).
  replace (set_mu (mu js) (set_mu m' js)) with js by (destruct js; reflexivity).
  destruct (negb _ && negb _ && negb _); reflexivity.
Qed.

(** X5.  A firing of a job's recurring trigger within the time frame, with
    [js.mu] not held for writing.  The closure reads the status of the job
    the registry holds under the captured job's identifier, and pushes the
    captured job: onto the ready queue when that status is none of
    [processing], [completed], [failed] and the queue has room; it waits
    when the queue is full; otherwise it changes nothing. *)
Theorem firing_enqueues_what_the_registry_holder_allows
        (js : JobScheduler) (p q : loc) (now : Z) (job cur : Job) :
  mu js ≠ WLocked -> heap js !! p = Some job ->
  Since now (CreatedAt job) <= seconds (TimeFrame job) ->
  jobs js !! JobID job = Some q -> heap js !! q = Some cur ->
  cronFire p now js =
    if shouldQueue (Status cur)
    then if (length (jobQueue js) <? jobQueue_cap)%nat
         then Ret tt (set_jobQueue (fun l => l ++ [p]) js)
         else Blocked js
    else Ret tt js.
Proof. apply cronFire_in_time. Qed.

Lemma firing_enqueues_what_the_registry_holder_allows_witness :
  (mu admitted ≠ WLocked /\ heap admitted !! 1%positive = Some job_1 /\
   Since (16 * Second) (CreatedAt job_1) <= seconds (TimeFrame job_1) /\
   jobs admitted !! JobID job_1 = Some 1%positive) /\
  cronFire 1%positive (16 * Second) admitted
  = Ret tt (set_jobQueue (fun l => l ++ [1%positive]) admitted).
Proof.
  assert (H1 : mu admitted ≠ WLocked) by (vm_compute; discriminate).
  assert (H2 : heap admitted !! 1%positive = Some job_1) by (vm_compute; reflexivity).
  assert (H3 : Since (16 * Second) (CreatedAt job_1) <= seconds (TimeFrame job_1))
    by (vm_compute; discriminate).
  assert (H4 : jobs admitted !! JobID job_1 = Some 1%positive)
    by (vm_compute; reflexivity).
  split; [auto |].
  exact (firing_enqueues_what_the_registry_holder_allows admitted 1%positive
           1%positive (16 * Second) job_1 job_1 H1 H2 H3 H4 H2).
Defined.

(** Two job objects with one identifier: the trigger of the first, which
    has completed, still pushes it, because the registry now holds the
    second, which is pending. *)
Example a_completed_job_is_enqueued_for_its_namesake :
  let done := mkJob "job_1" "completed" 0 120 15 2 0 (2 * Second) "" in
  let s0 := set_heap (fun _ => {[ 1%positive := done; 2%positive := job_1 ]})
              (NewJobScheduler 5 every_parser 0) in
  let s := run [EvAddJob 1%positive t1; EvAddJob 2%positive t1] s0 in
  jobs s !! "job_1"%string = Some 2%positive /\
  jobQueue (after (cron_tick 0 (16 * Second) s)) = [1%positive].
Proof. vm_compute. split; reflexivity. Qed.

(** ** Admission with capacity *)

(** X6.  [AddJob] with capacity, no lock held and a positive time frame.
    The job is put in the registry under its identifier, a one-shot timer
    of 2 s is armed for it, and the cron entry ["@every <interval>s"] is
    added when the parser accepts the spec: then the call returns [nil].
    When the parser rejects the spec the call returns the scheduling
    error, and the registry entry and the timer stay: nothing is undone.
    The waiting queue, the jobs themselves and the ready queue are
    untouched, and [js.mu] is released. *)
Theorem AddJob_with_capacity_registers
        (js : JobScheduler) (p : loc) (now : Z) (job : Job) :
  mu js = Unlocked -> heap js !! p = Some job -> 0 < TimeFrame job ->
  checkResourceAvailability js = true ->
  exists js',
    AddJob p now js =
      Ret (if parser (Cron js) (cronSpec_of job) then None
           else Some (ErrScheduleFailed (cronSpec_of job))) js' /\
    jobs js' = <[JobID job := p]> (jobs js) /\
    timers js' = timers js ++ [(2 * Second, p)] /\
    entries (Cron js') =
      (if parser (Cron js) (cronSpec_of job)
       then entries (Cron js) ++ [mkEntry (cronSpec_of job) p]
       else entries (Cron js)) /\
    waitingQueue js' = waitingQueue js /\
    jobQueue js' = jobQueue js /\
    heap js' = heap js /\
    mu js' = Unlocked.
Proof.
  intros Hmu Hp Htf Hcap. exists (scheduled p job js).
  split; [apply AddJob_capacity; assumption |].
  unfold scheduled. go_simpl. repeat split; try reflexivity. exact Hmu.
Qed.

Lemma AddJob_with_capacity_registers_witness :
  (mu idle = Unlocked /\ heap idle !! 1%positive = Some job_1 /\
   0 < TimeFrame job_1 /\ checkResourceAvailability idle = true) /\
  exists js',
    AddJob 1%positive t1 idle = Ret None js' /\
    jobs js' = <["job_1"%string := 1%positive]> (jobs idle) /\
    timers js' = timers idle ++ [(2 * Second, 1%positive)] /\
    entries (Cron js') = entries (Cron idle) ++ [mkEntry "@every 15s" 1%positive] /\
    waitingQueue js' = waitingQueue idle /\
    jobQueue js' = jobQueue idle /\
    heap js' = heap idle /\
    mu js' = Unlocked.
Proof.
  assert (H1 : mu idle = Unlocked) by (vm_compute; reflexivity).
  assert (H2 : heap idle !! 1%positive = Some job_1) by (vm_compute; reflexivity).
  assert (H3 : 0 < TimeFrame job_1) by (vm_compute; reflexivity).
  assert (H4 : checkResourceAvailability idle = true) by (vm_compute; reflexivity).
  split; [auto |].
  exact (AddJob_with_capacity_registers idle 1%positive t1 job_1 H1 H2 H3 H4).
Defined.

(** X7.  [AddJob] neither rejects nor recognises a job it already holds.
    Submitting the same job twice, with capacity and a spec the parser
    accepts, leaves one registry entry (the second call overwrites it with
    the same pointer) but two cron entries and two one-shot timers for the
    job. *)
Theorem readding_a_job_doubles_its_triggers
        (js : JobScheduler) (p : loc) (now now' : Z) (job : Job) :
  mu js = Unlocked -> heap js !! p = Some job -> 0 < TimeFrame job ->
  checkResourceAvailability js = true ->
  parser (Cron js) (cronSpec_of job) = true ->
  exists js1 js2,
    AddJob p now js = Ret None js1 /\
    AddJob p now' js1 = Ret None js2 /\
    jobs js2 = jobs js1 /\
    jobs js2 !! JobID job = Some p /\
    entries (Cron js2) =
      entries (Cron js) ++ [mkEntry (cronSpec_of job) p; mkEntry (cronSpec_of job) p] /\
    timers js2 = timers js ++ [(2 * Second, p); (2 * Second, p)].
Proof.
  intros Hmu Hp Htf Hcap Hparse.
  exists (scheduled p job js), (scheduled p job (scheduled p job js)).
  assert (E1 : AddJob p now js = Ret None (scheduled p job js)).
  { rewrite (AddJob_capacity js p now job Hmu Hp Htf Hcap).
    unfold scheduleJob_result. rewrite Hparse. reflexivity. }
  assert (E2 : AddJob p now' (scheduled p job js)
               = Ret None (scheduled p job (scheduled p job js))).
  { rewrite (AddJob_capacity (scheduled p job js) p now' job); try assumption.
    unfold scheduleJob_result, scheduled. go_simpl. rewrite Hparse. reflexivity. }
  split; [exact E1 |]. split; [exact E2 |].
  unfold scheduled. go_simpl. rewrite Hparse.
  split; [apply insert_insert_eq |].
  split; [apply lookup_insert_eq |].
  split; rewrite <- app_assoc; reflexivity.
Qed.

Lemma readding_a_job_doubles_its_triggers_witness :
  (mu idle = Unlocked /\ heap idle !! 1%positive = Some job_1 /\
   0 < TimeFrame job_1 /\ checkResourceAvailability idle = true /\
   parser (Cron idle) (cronSpec_of job_1) = true) /\
  exists js1 js2,
    AddJob 1%positive t1 idle = Ret None js1 /\
    AddJob 1%positive (2 * Second) js1 = Ret None js2 /\
    jobs js2 = jobs js1 /\
    jobs js2 !! JobID job_1 = Some 1%positive /\
    entries (Cron js2) =
      entries (Cron idle) ++ [mkEntry (cronSpec_of job_1) 1%positive;
                              mkEntry (cronSpec_of job_1) 1%positive] /\
    timers js2 = timers idle ++ [(2 * Second, 1%positive); (2 * Second, 1%positive)].
Proof.
  assert (H1 : mu idle = Unlocked) by (vm_compute; reflexivity).
  assert (H2 : heap idle !! 1%positive = Some job_1) by (vm_compute; reflexivity).
  assert (H3 : 0 < TimeFrame job_1) by (vm_compute; reflexivity).
  assert (H4 : checkResourceAvailability idle = true) by (vm_compute; reflexivity).
  assert (H5 : parser (Cron idle) (cronSpec_of job_1) = true)
    by (vm_compute; reflexivity).
  split; [auto 6 |].
  exact (readding_a_job_doubles_its_triggers idle 1%positive t1 (2 * Second)
           job_1 H1 H2 H3 H4 H5).
Defined.

(** ** One execution of the per-job routine *)

(** X8.  One execution of [processJob] for a job that is not in a final
    state, with no lock held and a default quorum that has active nodes.
    The job's [LastExecuted] is the time of the execution; when the draw
    succeeds the status is [completed] and the retry count is unchanged;
    otherwise the retry count is one higher and the status is [failed]
    (with the error "maximum retries exceeded") when it has reached
    [MaxRetries], [pending] when it has not.  The peer file and the
    network results have no part in it, no other job is touched, and the
    fields that identify the job are unchanged. *)
Theorem processJob_resolves_by_the_draw
        (js : JobScheduler) (p : loc) (now : Z) (a : Attempt)
        (job : Job) (quorum : Quorum) :
  mu js = Unlocked -> heap js !! p = Some job ->
  Status job ≠ "completed"%string -> Status job ≠ "failed"%string ->
  quorums js !! "default"%string = Some quorum -> ActiveNodes quorum ≠ [] ->
  exists job',
    heap (after (processJob p now a js)) = <[p := job']> (heap js) /\
    LastExecuted job' = now /\
    same_static job job' /\
    (succeeded a = true ->
     Status job' = "completed"%string /\
     CurrentRetries job' = CurrentRetries job /\ Error job' = Error job) /\
    (succeeded a = false ->
     CurrentRetries job' = wrap64 (CurrentRetries job + 1) /\
     (MaxRetries job <= CurrentRetries job' ->
      Status job' = "failed"%string /\
      Error job' = "maximum retries exceeded"%string) /\
     (CurrentRetries job' < MaxRetries job ->
      Status job' = "pending"%string /\ Error job' = Error job)).
Proof.
  intros Hmu Hp Hc Hf Hq Hn.
  exists (resolved a (begun now job)). split.
  { rewrite (processJob_attempt js p now a job quorum); try assumption.
    - destruct (send_fails _ a); reflexivity.
    - apply terminal_false; assumption. }
  unfold resolved, begun, same_static. go_simpl.
  destruct (succeeded a); go_simpl.
  - repeat split; try reflexivity; intros; discriminate.
  - destruct (Z.leb_spec (MaxRetries job) (wrap64 (CurrentRetries job + 1)));
      go_simpl; repeat split; try reflexivity; intros; try discriminate; lia.
Qed.

Lemma processJob_resolves_by_the_draw_witness :
  (mu idle = Unlocked /\ heap idle !! 1%positive = Some job_1 /\
   Status job_1 ≠ "completed"%string /\ Status job_1 ≠ "failed"%string /\
   quorums idle !! "default"%string = Some (defaultQuorum 0) /\
   ActiveNodes (defaultQuorum 0) ≠ []) /\
  exists job',
    heap (after (processJob 1%positive t1 failing idle))
    = <[1%positive := job']> (heap idle) /\
    LastExecuted job' = t1 /\
    same_static job_1 job' /\
    (succeeded failing = true ->
     Status job' = "completed"%string /\
     CurrentRetries job' = CurrentRetries job_1 /\ Error job' = Error job_1) /\
    (succeeded failing = false ->
     CurrentRetries job' = wrap64 (CurrentRetries job_1 + 1) /\
     (MaxRetries job_1 <= CurrentRetries job' ->
      Status job' = "failed"%string /\
      Error job' = "maximum retries exceeded"%string) /\
     (CurrentRetries job' < MaxRetries job_1 ->
      Status job' = "pending"%string /\ Error job' = Error job_1)).
Proof.
  assert (H1 : mu idle = Unlocked) by (vm_compute; reflexivity).
  assert (H2 : heap idle !! 1%positive = Some job_1) by (vm_compute; reflexivity).
  assert (H3 : Status job_1 ≠ "completed"%string) by discriminate.
  assert (H4 : Status job_1 ≠ "failed"%string) by discriminate.
  assert (H5 : quorums idle !! "default"%string = Some (defaultQuorum 0))
    by (vm_compute; reflexivity).
  assert (H6 : ActiveNodes (defaultQuorum 0) ≠ []) by discriminate.
  split; [auto 7 |].
  exact (processJob_resolves_by_the_draw idle 1%positive t1 failing job_1
           (defaultQuorum 0) H1 H2 H3 H4 H5 H6).
Defined.

(** X9.  When the dispatch reaches [SendMessage] and it fails (the peer
    file loads, it knows the chosen keeper, and the connection succeeds),
    [processJob] does not return: it asks for [js.mu] again while its own
    deferred unlock is pending.  The send error is never recorded, the job
    keeps the outcome of the draw, and from then on [GetJobDetails],
    [AddJob] for a valid job and every execution of [processJob] wait for
    the lock. *)
Theorem processJob_blocks_on_a_failed_send
        (js : JobScheduler) (p : loc) (now : Z) (a : Attempt)
        (job : Job) (quorum : Quorum) (infos : list string) (msg : string) :
  mu js = Unlocked -> heap js !! p = Some job ->
  Status job ≠ "completed"%string -> Status job ≠ "failed"%string ->
  quorums js !! "default"%string = Some quorum -> ActiveNodes quorum ≠ [] ->
  peerInfos a = Some infos ->
  existsb (String.eqb (pick (rand_keeper a) (ActiveNodes quorum))) infos = true ->
  connectOk a = true -> sendErr a = Some msg ->
  exists js',
    processJob p now a js = Blocked js' /\
    mu js' = WLocked /\
    heap js' !! p = Some (resolved a (begun now job)) /\
    (forall jobID, GetJobDetails jobID js' = Blocked js') /\
    (forall q now' a', processJob q now' a' js' = Blocked js') /\
    (forall q now' j, heap js' !! q = Some j -> 0 < TimeFrame j ->
                      AddJob q now' js' = Blocked js').
Proof.
  intros Hmu Hp Hc Hf Hq Hn Hinfos Hknown Hconn Hsend.
  exists (set_mu WLocked (set_heap <[p := resolved a (begun now job)]> js)).
  split.
  { rewrite (processJob_attempt js p now a job quorum); try assumption.
    - unfold send_fails. rewrite Hinfos, Hknown, Hconn, Hsend. reflexivity.
    - apply terminal_false; assumption. }
  split; [reflexivity |].
  split; [go_simpl; apply lookup_insert_eq |].
  split; [intros jobID; apply GetJobDetails_write_locked; reflexivity |].
  split.
  - intros q now' a'. unfold processJob, processJob_begin. go_unfold. reflexivity.
  - intros q now' j Hj Htf. unfold AddJob. go_unfold. rewrite Hj.
    destruct (Z.leb_spec (TimeFrame j) 0); [lia | reflexivity].
Qed.

(** An attempt whose send fails: the draw succeeds, the peer file knows
    the three nodes, the connection is made, the message is not
    delivered. *)
Definition undelivered : Attempt :=
  mkAttempt 0 0 0 true (Some ["node1"; "node2"; "node3"]%string) true
    (Some "stream reset"%string).

Lemma processJob_blocks_on_a_failed_send_witness :
  (mu idle = Unlocked /\ heap idle !! 1%positive = Some job_1 /\
   quorums idle !! "default"%string = Some (defaultQuorum 0) /\
   peerInfos undelivered = Some ["node1"; "node2"; "node3"]%string /\
   connectOk undelivered = true /\
   sendErr undelivered = Some "stream reset"%string) /\
  exists js',
    processJob 1%positive t1 undelivered idle = Blocked js' /\
    mu js' = WLocked /\
    heap js' !! 1%positive = Some (resolved undelivered (begun t1 job_1)) /\
    (forall jobID, GetJobDetails jobID js' = Blocked js') /\
    (forall q now' a', processJob q now' a' js' = Blocked js') /\
    (forall q now' j, heap js' !! q = Some j -> 0 < TimeFrame j ->
                      AddJob q now' js' = Blocked js').
Proof.
  assert (H1 : mu idle = Unlocked) by (vm_compute; reflexivity).
  assert (H2 : heap idle !! 1%positive = Some job_1) by (vm_compute; reflexivity).
  assert (H3 : Status job_1 ≠ "completed"%string) by discriminate.
  assert (H4 : Status job_1 ≠ "failed"%string) by discriminate.
  assert (H5 : quorums idle !! "default"%string = Some (defaultQuorum 0))
    by (vm_compute; reflexivity).
  assert (H6 : ActiveNodes (defaultQuorum 0) ≠ []) by discriminate.
  assert (H7 : existsb (String.eqb (pick (rand_keeper undelivered)
                                      (ActiveNodes (defaultQuorum 0))))
                 ["node1"; "node2"; "node3"]%string = true)
    by (vm_compute; reflexivity).
  split; [repeat split; assumption || reflexivity |].
  exact (processJob_blocks_on_a_failed_send idle 1%positive t1 undelivered job_1
           (defaultQuorum 0) ["node1"; "node2"; "node3"]%string "stream reset"
           H1 H2 H3 H4 H5 H6 eq_refl H7 eq_refl eq_refl).
Defined.

(** The job of that execution is left [completed], not [failed]. *)
Example a_failed_send_leaves_the_job_completed :
  Status (resolved undelivered (begun t1 job_1)) = "completed"%string /\
  Error (resolved undelivered (begun t1 job_1)) = ""%string.
Proof. split; reflexivity. Qed.

(** ** Quorums and keepers *)








(** ** The resource snapshot *)

(** An event that is neither a sample nor a change of the limits. *)
Definition leaves_resources (e : Event) : Prop :=
  match e with
  | EvSample _ _ | EvSetLimits _ _ => False
  | _ => True
  end.

Definition resources_kept (s s' : JobScheduler) : Prop := resources s' = resources s.

Lemma step_resources_kept (e : Event) (s : JobScheduler) :
  leaves_resources e -> resources_kept s (step e s).
Proof.
  assert (Hrefl : forall s, resources_kept s s) by reflexivity.
  assert (Htrans : forall s1 s2 s3,
             resources_kept s1 s2 -> resources_kept s2 s3 -> resources_kept s1 s3)
    by (unfold resources_kept; intros; congruence).
  assert (HprocessJob : forall p now a, keeps resources_kept (processJob p now a))
    by (intros; apply keeps_processJob; try assumption; intros; reflexivity).
  intros He. destruct e; cbn [step]; try contradiction.
  - apply keeps_AddJob; try assumption; intros; reflexivity.
  - apply keeps_cron_tick; try assumption; intros; reflexivity.
  - apply HprocessJob.
  - apply keeps_worker_receive; try assumption; intros; reflexivity.
  - apply keeps_timer_fire; try assumption; intros; reflexivity.
  - apply keeps_processWaitingQueue_tick; try assumption; intros; reflexivity.
Qed.

(** X12.  The resource snapshot is written by the sampler and by
    [SetResourceLimits] only: along a run with no sample and no change of
    limits, the usage figures, the thresholds and therefore the capacity
    verdict stay what they were. *)
Theorem only_the_sampler_and_the_limits_change_resources
        (es : list Event) (js : JobScheduler) :
  Forall leaves_resources es ->
  resources (run es js) = resources js /\
  checkResourceAvailability (run es js) = checkResourceAvailability js.
Proof.
  intros Hes.
  assert (H : resources (run es js) = resources js).
  { revert js. induction Hes as [| e es He Hes IH]; intros js; [reflexivity |].
    cbn [run fold_left]. fold (run es (step e js)).
    rewrite IH. apply step_resources_kept. exact He. }
  split; [exact H |]. unfold checkResourceAvailability. rewrite H. reflexivity.
Qed.

Lemma only_the_sampler_and_the_limits_change_resources_witness :
  Forall leaves_resources
    [EvAddJob 1%positive t1; EvTimer (3 * Second) failing;
     EvCronFire 0 (16 * Second); EvWorker (17 * Second) succeeding; EvPromote] /\
  resources (run [EvAddJob 1%positive t1; EvTimer (3 * Second) failing;
                  EvCronFire 0 (16 * Second); EvWorker (17 * Second) succeeding;
                  EvPromote] idle)
  = resources idle /\
  checkResourceAvailability
    (run [EvAddJob 1%positive t1; EvTimer (3 * Second) failing;
          EvCronFire 0 (16 * Second); EvWorker (17 * Second) succeeding;
          EvPromote] idle)
  = checkResourceAvailability idle.
Proof.
  assert (H : Forall leaves_resources
                [EvAddJob 1%positive t1; EvTimer (3 * Second) failing;
                 EvCronFire 0 (16 * Second); EvWorker (17 * Second) succeeding;
                 EvPromote])
    by (repeat constructor).
  split; [exact H |].
  exact (only_the_sampler_and_the_limits_change_resources _ idle H).
Defined.

(** X13.  Limits set, then a sample, then read back.  With no lock held,
    [SetResourceLimits(c, m)] followed by a tick of the sampler and
    [GetSystemMetrics] gives back the thresholds [c] and [m]; each usage
    figure is the new sample when its query succeeded and the figure from
    before when it failed; and the capacity check is then exactly "CPU
    usage below [c] and memory usage below [m]". *)
Theorem limits_and_samples_read_back
        (js : JobScheduler) (c m : spec_float) (cpu mem : option spec_float) :
  mu js = Unlocked ->
  exists s1 s2 r,
    SetResourceLimits c m js = Ret tt s1 /\
    monitorResources_tick cpu mem s1 = Ret tt s2 /\
    GetSystemMetrics s2 = Ret r s2 /\
    MaxCPU r = c /\ MaxMemory r = m /\
    CPUUsage r = default (CPUUsage (resources js)) cpu /\
    MemoryUsage r = default (MemoryUsage (resources js)) mem /\
    checkResourceAvailability s2
    = float_lt (CPUUsage r) c && float_lt (MemoryUsage r) m.
Proof.
  intros Hmu.
  assert (E1 : SetResourceLimits c m js
               = Ret tt (set_mu Unlocked
                           (set_resources
                              (fun r => mkResources (CPUUsage r) (MemoryUsage r) c m)
                              (set_mu WLocked js)))).
  { unfold SetResourceLimits. go_unfold. rewrite Hmu. reflexivity. }
  destruct cpu as [x |], mem as [y |];
    (eexists _, _, _; split; [exact E1 |];
     split; [unfold monitorResources_tick; go_unfold; reflexivity |];
     split; [unfold GetSystemMetrics; go_unfold; go_simpl; reflexivity |];
     repeat split; reflexivity).
Qed.

Lemma limits_and_samples_read_back_witness :
  mu idle = Unlocked /\
  exists s1 s2 r,
    SetResourceLimits float_80 float_80 idle = Ret tt s1 /\
    monitorResources_tick (Some float_40) None s1 = Ret tt s2 /\
    GetSystemMetrics s2 = Ret r s2 /\
    MaxCPU r = float_80 /\ MaxMemory r = float_80 /\
    CPUUsage r = float_40 /\
    MemoryUsage r = float_0 /\
    checkResourceAvailability s2
    = float_lt (CPUUsage r) float_80 && float_lt (MemoryUsage r) float_80.
Proof.
  assert (H1 : mu idle = Unlocked) by (vm_compute; reflexivity).
  split; [exact H1 |].
  exact (limits_and_samples_read_back idle float_80 float_80
           (Some float_40) None H1).
Defined.

(** With the CPU threshold raised to 80 %, the sample of 40 % that made
    [AddJob] wait lets it through. *)
Example raised_limits_restore_admission :
  checkResourceAvailability busy = false /\
  exists js', AddJob 1%positive t1 (after (SetResourceLimits float_80 float_80 busy))
              = Ret None js' /\
              jobs js' !! "job_1"%string = Some 1%positive.
Proof.
  split; [vm_compute; reflexivity |].
  eexists. split; vm_compute; reflexivity.
Qed.

(** ** The status report *)

Lemma GetQueueStatus_reads (js : JobScheduler) :
  mu js ≠ WLocked -> waitingQueueMu js ≠ WLocked ->
  GetQueueStatus js = Ret (status_of js) js.
Proof.
  intros Hmu Hwmu.
  destruct (RLock_RUnlock (mu js) Hmu) as (m1 & Hl1 & Hu1).
  destruct (RLock_RUnlock (waitingQueueMu js) Hwmu) as (m2 & Hl2 & Hu2).
  unfold GetQueueStatus, waitingQueueMu_RLock, waitingQueueMu_RUnlock. go_unfold.
  go_with ltac:(first [rewrite Hl1 | rewrite Hl2 | rewrite Hu1 | rewrite Hu2]).
  destruct js; reflexivity.
Qed.

(** X14.  [GetQueueStatus] counts identifiers, not submissions.  After an
    [AddJob] with capacity, the report's [active_jobs] is one more than
    the registry held before when the job's identifier was new, and the
    same number when the identifier was already registered; its
    [waiting_jobs] is the length of the waiting queue, unchanged. *)
Theorem GetQueueStatus_counts_identifiers
        (js : JobScheduler) (p : loc) (now : Z) (job : Job) :
  mu js = Unlocked -> waitingQueueMu js ≠ WLocked ->
  heap js !! p = Some job -> 0 < TimeFrame job ->
  checkResourceAvailability js = true ->
  exists err js' report,
    AddJob p now js = Ret err js' /\
    GetQueueStatus js' = Ret report js' /\
    report !! "active_jobs"%string
    = Some (MInt (Z.of_nat (size (jobs js))
                  + (match jobs js !! JobID job with Some _ => 0 | None => 1 end))) /\
    report !! "waiting_jobs"%string
    = Some (MInt (Z.of_nat (length (waitingQueue js)))).
Proof.
  intros Hmu Hwmu Hp Htf Hcap.
  exists (scheduleJob_result job js), (scheduled p job js),
         (status_of (scheduled p job js)).
  split; [apply AddJob_capacity; assumption |].
  split.
  { apply GetQueueStatus_reads; unfold scheduled; go_simpl; [rewrite Hmu; discriminate | exact Hwmu]. }
  unfold status_of, scheduled. go_simpl. split.
  - rewrite lookup_insert_eq. do 2 f_equal.
    destruct (jobs js !! JobID job) as [q |] eqn:Hid.
    + rewrite map_size_insert_Some by (rewrite Hid; eauto). lia.
    + rewrite map_size_insert_None by exact Hid. lia.
  - rewrite lookup_insert_ne by discriminate. rewrite lookup_insert_eq. reflexivity.
Qed.

Lemma GetQueueStatus_counts_identifiers_witness :
  (mu admitted = Unlocked /\ waitingQueueMu admitted ≠ WLocked /\
   heap admitted !! 1%positive = Some job_1 /\ 0 < TimeFrame job_1 /\
   checkResourceAvailability admitted = true) /\
  exists err js' report,
    AddJob 1%positive (2 * Second) admitted = Ret err js' /\
    GetQueueStatus js' = Ret report js' /\
    report !! "active_jobs"%string
    = Some (MInt (Z.of_nat (size (jobs admitted))
                  + (match jobs admitted !! JobID job_1 with Some _ => 0 | None => 1 end))) /\
    report !! "waiting_jobs"%string
    = Some (MInt (Z.of_nat (length (waitingQueue admitted)))).
Proof.
  assert (H1 : mu admitted = Unlocked) by (vm_compute; reflexivity).
  assert (H2 : waitingQueueMu admitted ≠ WLocked) by (vm_compute; discriminate).
  assert (H3 : heap admitted !! 1%positive = Some job_1) by (vm_compute; reflexivity).
  assert (H4 : 0 < TimeFrame job_1) by (vm_compute; reflexivity).
  assert (H5 : checkResourceAvailability admitted = true) by (vm_compute; reflexivity).
  split; [auto 6 |].
  exact (GetQueueStatus_counts_identifiers admitted 1%positive (2 * Second)
           job_1 H1 H2 H3 H4 H5).
Defined.

(** One job submitted twice: one active job, two cron entries. *)
Example one_active_job_two_triggers :
  let s := run [EvAddJob 1%positive t1; EvAddJob 1%positive (2 * Second)] idle in
  GetQueueStatus s = Ret (status_of s) s /\
  status_of s !! "active_jobs"%string = Some (MInt 1) /\
  length (entries (Cron s)) = 2%nat.
Proof. vm_compute. repeat split; reflexivity. Qed.

(** ** What a run never undoes *)

Definition registry_grows (s s' : JobScheduler) : Prop :=
  forall id, is_Some (jobs s !! id) -> is_Some (jobs s' !! id).

Lemma run_registry_grows (es : list Event) (s : JobScheduler) :
  registry_grows s (run es s).
Proof.
  assert (Hrefl : forall s, registry_grows s s) by (intros ? ? H; exact H).
  assert (Htrans : forall s1 s2 s3,
             registry_grows s1 s2 -> registry_grows s2 s3 -> registry_grows s1 s3)
    by (intros ? ? ? H1 H2 id H; apply H2, H1, H).
  assert (Hins : forall s id p, registry_grows s (set_jobs <[id := p]> s)).
  { intros s0 id p id' H. go_simpl. apply lookup_insert_is_Some.
    destruct (decide (id = id')); [left; assumption | right; auto]. }
  apply (R_run_of_steps registry_grows); try assumption;
    try (unfold registry_grows; intros; go_simpl; assumption).
  - intros p now a. apply keeps_processJob; try assumption;
      unfold registry_grows; intros; go_simpl; assumption.
  - intros p now. apply keeps_AddJob; try assumption;
      unfold registry_grows; intros; go_simpl; assumption.
Qed.

(** X15.  Nothing is ever evicted or renamed.  Along every run, an
    identifier that has a registry entry keeps one, and every job keeps
    its [JobID], [CreatedAt], [TimeFrame], [TimeInterval] and
    [MaxRetries]: the methods only write [Status], [LastExecuted],
    [CurrentRetries] and [Error]. *)
Theorem registry_and_job_identity_are_stable (es : list Event) (js : JobScheduler) :
  (forall id, is_Some (jobs js !! id) -> is_Some (jobs (run es js) !! id)) /\
  (forall p j, heap js !! p = Some j ->
     exists j', heap (run es js) !! p = Some j' /\
       JobID j' = JobID j /\ CreatedAt j' = CreatedAt j /\
       TimeFrame j' = TimeFrame j /\ TimeInterval j' = TimeInterval j /\
       MaxRetries j' = MaxRetries j).
Proof.
  split; [apply run_registry_grows |].
  intros p j Hp. exact (run_static es js p j Hp).
Qed.

(** ** The registry of a scheduler the program can be in *)

(** Every registry entry points to a job that carries the entry's
    identifier. *)
Definition registry_consistent (s : JobScheduler) : Prop :=
  forall id p, jobs s !! id = Some p ->
    exists j, heap s !! p = Some j /\ JobID j = id.

Definition tidy (s : JobScheduler) : Prop :=
  waitingQueue s = [] /\ registry_consistent s.

Definition stays_tidy (s s' : JobScheduler) : Prop := tidy s -> tidy s'.

Lemma stays_tidy_same (s s' : JobScheduler) :
  heap s' = heap s -> jobs s' = jobs s -> waitingQueue s' = waitingQueue s ->
  stays_tidy s s'.
Proof.
  intros Eh Ej Ew [Hw Hc]. split; [congruence |].
  intros id p Hid. rewrite Ej in Hid. rewrite Eh. apply (Hc id p Hid).
Qed.

Definition registry_frame (s s' : JobScheduler) : Prop :=
  jobs s' = jobs s /\ waitingQueue s' = waitingQueue s.

Lemma registry_frame_processJob (p : loc) (now : Z) (a : Attempt) :
  keeps registry_frame (processJob p now a).
Proof.
  apply keeps_processJob; try (intros; split; reflexivity).
  intros s1 s2 s3 [A1 A2] [B1 B2]. split; congruence.
Qed.

Lemma stays_tidy_processJob (p : loc) (now : Z) (a : Attempt) :
  keeps stays_tidy (processJob p now a).
Proof.
  intros s [Hw Hc].
  destruct (registry_frame_processJob p now a s) as [Ej Ew].
  pose proof (run_static [EvProcessJob p now a] s) as Hstatic.
  cbn [run fold_left step] in Hstatic.
  split; [congruence |].
  intros id q Hid. rewrite Ej in Hid. destruct (Hc id q Hid) as (j & Hj & Hjid).
  destruct (Hstatic q j Hj) as (j' & Hj' & Hid' & _).
  exists j'. split; [exact Hj' | congruence].
Qed.

Lemma stays_tidy_AddJob (p : loc) (now : Z) : keeps stays_tidy (AddJob p now).
Proof.
  intros s.
  destruct (heap s !! p) as [job |] eqn:Hp.
  2: { apply stays_tidy_same; unfold AddJob; go_unfold; rewrite Hp; reflexivity. }
  destruct (Z.leb_spec (TimeFrame job) 0) as [Htf | Htf].
  { rewrite (AddJob_invalid s p now job Hp Htf). apply stays_tidy_same; reflexivity. }
  destruct (mu s) eqn:Hmu.
  2,3: apply stays_tidy_same; unfold AddJob; go_unfold; rewrite Hp;
       destruct (Z.leb_spec (TimeFrame job) 0); try lia;
       rewrite Hmu; reflexivity.
  destruct (checkResourceAvailability s) eqn:Hcap.
  - rewrite (AddJob_capacity s p now job Hmu Hp Htf Hcap). cbn [after].
    intros [Hw Hc]. split; [exact Hw |].
    unfold scheduled. intros id q Hid. go_simpl.
    destruct (decide (JobID job = id)) as [<- | Hne].
    + rewrite lookup_insert_eq in Hid. inversion Hid; subst. eauto.
    + rewrite lookup_insert_ne in Hid by exact Hne. apply (Hc id q Hid).
  - rewrite (AddJob_pressure s p now job Hmu Hp Htf Hcap).
    apply stays_tidy_same; reflexivity.
Qed.

Lemma stays_tidy_tick : keeps stays_tidy processWaitingQueue_tick.
Proof.
  intros s Hs. assert (Hw : waitingQueue s = []) by apply Hs. revert Hs.
  apply stays_tidy_same;
    unfold processWaitingQueue_tick; go_unfold;
    destruct (checkResourceAvailability s); try reflexivity;
    destruct (waitingQueueMu s); go_simpl; try reflexivity;
    rewrite Hw; go_simpl; rewrite ?Hw; reflexivity.
Qed.

Lemma run_stays_tidy (es : list Event) (s : JobScheduler) :
  stays_tidy s (run es s).
Proof.
  apply (R_run stays_tidy);
    try (intros; apply stays_tidy_same; reflexivity).
  - intros s1 s2 s3 H12 H23 H1. auto.
  - apply stays_tidy_processJob.
  - apply stays_tidy_AddJob.
  - apply stays_tidy_tick.
Qed.

Lemma reachable_tidy (s : JobScheduler) : reachable s -> tidy s.
Proof.
  intros (h & workers & withSeconds & t0 & es & ->).
  apply run_stays_tidy. split; [reflexivity |].
  intros id p Hid. cbn in Hid. rewrite lookup_empty in Hid. discriminate.
Qed.


(** X16.  In every scheduler reached from [NewJobScheduler], each registry
    entry points to a job of the heap whose [JobID] is the entry's key:
    the registry never holds a dangling pointer or a job filed under
    another name, so [GetJobDetails] answers a registered identifier with
    that job's own details. *)
Theorem registry_entries_point_to_their_jobs
        (js : JobScheduler) (id : string) (p : loc) :
  reachable js -> jobs js !! id = Some p ->
  exists j, heap js !! p = Some j /\ JobID j = id /\
    (mu js ≠ WLocked -> GetJobDetails id js = Ret (inl (details_of j)) js).
Proof.
  intros Hreach Hid.
  destruct (reachable_tidy js Hreach) as [_ Hc].
  destruct (Hc id p Hid) as (j & Hj & Hjid).
  exists j. split; [exact Hj |]. split; [exact Hjid |].
  intros Hmu. apply (GetJobDetails_present js id p j Hmu Hid Hj).
Qed.

Lemma registry_entries_point_to_their_jobs_witness :
  (reachable admitted /\ jobs admitted !! "job_1"%string = Some 1%positive) /\
  exists j, heap admitted !! 1%positive = Some j /\ JobID j = "job_1"%string /\
    (mu admitted ≠ WLocked ->
     GetJobDetails "job_1" admitted = Ret (inl (details_of j)) admitted).
Proof.
  assert (H : jobs admitted !! "job_1"%string = Some 1%positive)
    by (vm_compute; reflexivity).
  split; [split; [exact admitted_reachable | exact H] |].
  exact (registry_entries_point_to_their_jobs admitted "job_1" 1%positive
           admitted_reachable H).
Defined.

(** ** Finished jobs *)













(** ** From admission to the second attempt *)

Lemma sent_or_not_tried (k : string) (a : Attempt) :
  sendErr a = None -> send_fails k a = false.
Proof.
  intros H. unfold send_fails. rewrite H.
  destruct (peerInfos a); [apply andb_false_r | reflexivity].
Qed.

Lemma resolved_status (a : Attempt) (now : Z) (j : Job) :
  Status (resolved a (begun now j)) = "completed"%string \/
  Status (resolved a (begun now j)) = "failed"%string \/
  Status (resolved a (begun now j)) = "pending"%string.
Proof.
  unfold resolved, begun. destruct (succeeded a); [auto |].
  go_simpl. destruct (_ <=? _); go_simpl; auto.
Qed.

Lemma shouldQueue_resolved (a : Attempt) (now : Z) (j : Job) :
  shouldQueue (Status (resolved a (begun now j)))
  = String.eqb (Status (resolved a (begun now j))) "pending".
Proof.
  destruct (resolved_status a now j) as [E | [E | E]]; rewrite E; reflexivity.
Qed.

Lemma resolved_static (a : Attempt) (now : Z) (j : Job) :
  same_static j (resolved a (begun now j)).
Proof.
  unfold same_static, resolved, begun. destruct (succeeded a); go_simpl; auto 6.
  destruct (_ <=? _); go_simpl; auto 6.
Qed.

(** The scheduler after [AddJob], the job's one-shot timer, and a first
    attempt that left the record [first]. *)
Definition attempted (p : loc) (job first : Job) (s : JobScheduler) : JobScheduler :=
  set_heap <[p := first]> (set_timers (fun _ => []) (scheduled p job s)).

Lemma admitted_then_attempted
      (js : JobScheduler) (p : loc) (job : Job) (quorum : Quorum)
      (t0 t1 : Z) (a1 : Attempt) :
  mu js = Unlocked -> heap js !! p = Some job -> 0 < TimeFrame job ->
  checkResourceAvailability js = true ->
  timers js = [] ->
  terminal (Status job) = false ->
  quorums js !! "default"%string = Some quorum -> ActiveNodes quorum ≠ [] ->
  sendErr a1 = None ->
  run [EvAddJob p t0; EvTimer t1 a1] js
  = attempted p job (resolved a1 (begun t1 job)) js.
Proof.
  intros Hmu Hp Htf Hcap Htimers Ht Hq Hn Hsend.
  cbn [run fold_left step].
  rewrite (AddJob_capacity js p t0 job Hmu Hp Htf Hcap). cbn [after].
  unfold timer_fire. go_unfold.
  assert (E : timers (scheduled p job js) = [(2 * Second, p)])
    by (unfold scheduled; go_simpl; rewrite Htimers; reflexivity).
  rewrite E.
  rewrite (processJob_attempt _ p t1 a1 job quorum);
    try assumption; try (unfold scheduled; go_simpl; assumption).
  rewrite (sent_or_not_tried _ a1 Hsend). reflexivity.
Qed.

Lemma attempted_then_fired
      (js : JobScheduler) (p : loc) (job first : Job) (t2 : Z) :
  mu js = Unlocked -> parser (Cron js) (cronSpec_of job) = true ->
  jobQueue js = [] -> same_static job first ->
  Since t2 (CreatedAt job) <= seconds (TimeFrame job) ->
  run [EvCronFire (length (entries (Cron js))) t2] (attempted p job first js)
  = set_jobQueue (fun _ => if shouldQueue (Status first) then [p] else [])
      (attempted p job first js).
Proof.
  intros Hmu Hparse Hqueue (Hid & Hcreated & Hframe & _) Hage.
  cbn [run fold_left step]. unfold cron_tick. go_unfold.
  assert (E : entries (Cron (attempted p job first js))
              !! length (entries (Cron js))
              = Some (mkEntry (cronSpec_of job) p)).
  { unfold attempted, scheduled. go_simpl. rewrite Hparse.
    rewrite lookup_app_r by lia. rewrite Nat.sub_diag. reflexivity. }
  rewrite E. go_simpl.
  rewrite (cronFire_in_time (attempted p job first js) p p t2 first first).
  - assert (Hlen : jobQueue (attempted p job first js) = [])
      by (unfold attempted, scheduled; go_simpl; exact Hqueue).
    rewrite Hlen. cbn [length Nat.ltb Nat.leb jobQueue_cap].
    destruct (shouldQueue (Status first)); cbn [after].
    + destruct js; unfold attempted, scheduled, set_jobQueue in *; go_simpl.
      cbn in Hqueue. subst. reflexivity.
    + destruct js; unfold attempted, scheduled, set_jobQueue in *; go_simpl.
      cbn in Hqueue. subst. reflexivity.
  - unfold attempted, scheduled. go_simpl. rewrite Hmu. discriminate.
  - unfold attempted, scheduled. go_simpl. apply lookup_insert_eq.
  - rewrite Hcreated, Hframe. exact Hage.
  - unfold attempted, scheduled. go_simpl. rewrite Hid. apply lookup_insert_eq.
  - unfold attempted, scheduled. go_simpl. apply lookup_insert_eq.
Qed.

(** X18.  From admission to the second attempt.  A job that is not in a
    final state is submitted with capacity to a scheduler with no lock
    held, no timer pending and an empty ready queue; its one-shot timer
    fires and the first attempt runs (the send, if tried, succeeds); then
    its recurring trigger fires within the time frame.  The trigger puts
    the job on the ready queue exactly when the first attempt left it
    [pending], that is when the draw failed with retries left; a worker
    then takes it and runs the second attempt on the record the first one
    left.  After a first attempt that completed or exhausted the retries
    the ready queue stays empty. *)
Theorem a_pending_job_is_retried_through_its_trigger
        (js : JobScheduler) (p : loc) (job : Job) (quorum : Quorum)
        (t0 t1 t2 t3 : Z) (a1 a2 : Attempt) :
  mu js = Unlocked -> heap js !! p = Some job -> 0 < TimeFrame job ->
  checkResourceAvailability js = true ->
  parser (Cron js) (cronSpec_of job) = true ->
  timers js = [] -> jobQueue js = [] ->
  Status job ≠ "completed"%string -> Status job ≠ "failed"%string ->
  quorums js !! "default"%string = Some quorum -> ActiveNodes quorum ≠ [] ->
  sendErr a1 = None -> sendErr a2 = None ->
  Since t2 (CreatedAt job) <= seconds (TimeFrame job) ->
  let first := resolved a1 (begun t1 job) in
  let trigger := EvCronFire (length (entries (Cron js))) t2 in
  let s3 := run [EvAddJob p t0; EvTimer t1 a1; trigger] js in
  let s4 := run [EvWorker t3 a2] s3 in
  heap s3 = <[p := first]> (heap js) /\
  jobQueue s3 = (if String.eqb (Status first) "pending" then [p] else []) /\
  (Status first = "pending"%string ->
   heap s4 = <[p := resolved a2 (begun t3 first)]> (heap js) /\
   jobQueue s4 = []).
Proof.
  intros Hmu Hp Htf Hcap Hparse Htimers Hqueue Hc Hf Hq Hn Hs1 Hs2 Hage.
  intros first trigger s3 s4.
  assert (Ht : terminal (Status job) = false) by (apply terminal_false; assumption).
  assert (E3 : s3 = set_jobQueue
                      (fun _ => if String.eqb (Status first) "pending" then [p] else [])
                      (attempted p job first js)).
  { unfold s3, trigger.
    change [EvAddJob p t0; EvTimer t1 a1; EvCronFire (length (entries (Cron js))) t2]
      with ([EvAddJob p t0; EvTimer t1 a1]
            ++ [EvCronFire (length (entries (Cron js))) t2]).
    unfold run. rewrite fold_left_app. fold (run [EvAddJob p t0; EvTimer t1 a1] js).
    rewrite (admitted_then_attempted js p job quorum t0 t1 a1) by assumption.
    fold first.
    fold (run [EvCronFire (length (entries (Cron js))) t2] (attempted p job first js)).
    rewrite (attempted_then_fired js p job first t2); try assumption.
    - unfold first. rewrite shouldQueue_resolved. reflexivity.
    - apply resolved_static. }
  split; [rewrite E3; unfold attempted, scheduled; go_simpl; reflexivity |].
  split; [rewrite E3; go_simpl; reflexivity |].
  intros Hpending. unfold s4. rewrite E3, Hpending.
  cbn [run fold_left step String.eqb Ascii.eqb Bool.eqb].
  unfold worker_receive. go_unfold. go_simpl.
  rewrite (processJob_attempt _ p t3 a2 first quorum).
  - rewrite (sent_or_not_tried _ a2 Hs2). cbn [after].
    unfold attempted, scheduled. go_simpl.
    split; [apply insert_insert_eq | reflexivity].
  - unfold attempted, scheduled. go_simpl. exact Hmu.
  - unfold attempted, scheduled. go_simpl. apply lookup_insert_eq.
  - rewrite Hpending. reflexivity.
  - unfold attempted, scheduled. go_simpl. exact Hq.
  - exact Hn.
Qed.

Lemma a_pending_job_is_retried_through_its_trigger_witness :
  (mu idle = Unlocked /\ heap idle !! 1%positive = Some job_1 /\
   checkResourceAvailability idle = true /\
   timers idle = [] /\ jobQueue idle = [] /\
   sendErr failing = None /\ sendErr succeeding = None) /\
  let first := resolved failing (begun (3 * Second) job_1) in
  let s3 := run [EvAddJob 1%positive t1; EvTimer (3 * Second) failing;
                 EvCronFire 0 (16 * Second)] idle in
  let s4 := run [EvWorker (17 * Second) succeeding] s3 in
  heap s3 = <[1%positive := first]> (heap idle) /\
  jobQueue s3 = [1%positive] /\
  (Status first = "pending"%string ->
   heap s4 = <[1%positive := resolved succeeding (begun (17 * Second) first)]>
               (heap idle) /\
   jobQueue s4 = []).
Proof.
  assert (H1 : mu idle = Unlocked) by (vm_compute; reflexivity).
  assert (H2 : heap idle !! 1%positive = Some job_1) by (vm_compute; reflexivity).
  assert (H3 : 0 < TimeFrame job_1) by (vm_compute; reflexivity).
  assert (H4 : checkResourceAvailability idle = true) by (vm_compute; reflexivity).
  assert (H5 : parser (Cron idle) (cronSpec_of job_1) = true)
    by (vm_compute; reflexivity).
  assert (H6 : timers idle = []) by (vm_compute; reflexivity).
  assert (H7 : jobQueue idle = []) by (vm_compute; reflexivity).
  assert (H8 : Status job_1 ≠ "completed"%string) by discriminate.
  assert (H9 : Status job_1 ≠ "failed"%string) by discriminate.
  assert (H10 : quorums idle !! "default"%string = Some (defaultQuorum 0))
    by (vm_compute; reflexivity).
  assert (H11 : ActiveNodes (defaultQuorum 0) ≠ []) by discriminate.
  assert (H12 : Since (16 * Second) (CreatedAt job_1) <= seconds (TimeFrame job_1))
    by (vm_compute; discriminate).
  split; [repeat split; assumption || reflexivity |].
  exact (a_pending_job_is_retried_through_its_trigger idle 1%positive job_1
           (defaultQuorum 0) t1 (3 * Second) (16 * Second) (17 * Second)
           failing succeeding
           H1 H2 H3 H4 H5 H6 H7 H8 H9 H10 H11 eq_refl eq_refl H12).
Defined.

(** The record after the two attempts: one retry used, completed. *)
Example job_1_after_a_failure_and_a_success :
  resolved succeeding (begun (17 * Second) (resolved failing (begun (3 * Second) job_1)))
  = mkJob "job_1" "completed" 0 120 15 2 1 (17 * Second) "".
Proof. vm_compute. reflexivity. Qed.
